(** * Kolam Art Studio: the persistence and authentication layer of main3.py

    The development follows the Python source function by function.

    - Python [str] values are represented by their UTF-8 bytes, as the
      Standard Library's [string]; SQLite compares TEXT columns bytewise
      (BINARY collation), which is [String.compare].
    - The SQLite file is a record of three tables; a table is the list of its
      rows in rowid order, which is the order of a table scan.
    - Every function opens a connection, runs one statement, commits and
      closes: it is one transaction, a function from store to store together
      with the Python value it returns.
    - [datetime.datetime.now().isoformat()] is an input of the functions that
      call it.
    - An [int] passed to a statement must be a signed 64-bit integer: the call
      raises OverflowError otherwise and the store stays as it was.
    - Storage failures (no disk space, a locked file, the rowid space used up at
      2^63 - 1) are outside the model: stored integers are in [Z]. *)

From Stdlib Require Import ZArith List String Ascii Bool Lia Permutation Sorted.
Import ListNotations.
Open Scope string_scope.
Open Scope list_scope.
Open Scope Z_scope.

(** ** hashlib.sha256 (FIPS 180-4), on 32-bit words held in [Z] *)

Module SHA256.

Definition w32 : Z := 2 ^ 32.

Definition add32 (x y : Z) : Z := (x + y) mod w32.

Definition rotr (n x : Z) : Z :=
  Z.lor (Z.shiftr x n) ((Z.shiftl x (32 - n)) mod w32).

Definition Ch (x y z : Z) : Z :=
  Z.lxor (Z.land x y) (Z.land (Z.lxor x (w32 - 1)) z).

Definition Maj (x y z : Z) : Z :=
  Z.lxor (Z.lxor (Z.land x y) (Z.land x z)) (Z.land y z).

Definition Sigma0 (x : Z) : Z := Z.lxor (Z.lxor (rotr 2 x) (rotr 13 x)) (rotr 22 x).
Definition Sigma1 (x : Z) : Z := Z.lxor (Z.lxor (rotr 6 x) (rotr 11 x)) (rotr 25 x).
Definition sigma0 (x : Z) : Z := Z.lxor (Z.lxor (rotr 7 x) (rotr 18 x)) (Z.shiftr x 3).
Definition sigma1 (x : Z) : Z := Z.lxor (Z.lxor (rotr 17 x) (rotr 19 x)) (Z.shiftr x 10).

(** The constants are the first 32 bits of the fractional parts of the cube
    roots (for [K]) and of the square roots (for [H0]) of the first primes. *)
Definition primes64 : list Z :=
  [ 2; 3; 5; 7; 11; 13; 17; 19; 23; 29; 31; 37; 41; 43; 47; 53;
    59; 61; 67; 71; 73; 79; 83; 89; 97; 101; 103; 107; 109; 113; 127; 131;
    137; 139; 149; 151; 157; 163; 167; 173; 179; 181; 191; 193; 197; 199; 211; 223;
    227; 229; 233; 239; 241; 251; 257; 263; 269; 271; 277; 281; 283; 293; 307; 311 ].

(** The integer cube root below [2 ^ bits], one binary digit at a time. *)
Fixpoint cube_root (bits : nat) (n r : Z) : Z :=
  match bits with
  | O => r
  | S b =>
      let r' := r + 2 ^ Z.of_nat b in
      cube_root b n (if r' * r' * r' <=? n then r' else r)
  end.

Definition frac_cube_root (p : Z) : Z := cube_root 35 (p * 2 ^ 96) 0 mod w32.
Definition frac_square_root (p : Z) : Z := Z.sqrt (p * 2 ^ 64) mod w32.

Definition K : list Z := Eval vm_compute in map frac_cube_root primes64.

(** The hash value: eight working words. *)
Record state := mk_state { ha : Z; hb : Z; hc : Z; hd : Z; he : Z; hf : Z; hg : Z; hh : Z }.

Definition H0 : state :=
  Eval vm_compute in
  mk_state (frac_square_root 2) (frac_square_root 3) (frac_square_root 5)
           (frac_square_root 7) (frac_square_root 11) (frac_square_root 13)
           (frac_square_root 17) (frac_square_root 19).

(** Padding: the byte 0x80, zero bytes up to 56 modulo 64, then the bit length
    of the message as a 64-bit big-endian integer. *)
Fixpoint be_bytes (n : nat) (x : Z) : list Z :=
  match n with
  | O => []
  | S n' => be_bytes n' (x / 256) ++ [x mod 256]
  end.

Definition pad (msg : list Z) : list Z :=
  let len := Z.of_nat (List.length msg) in
  let zeros := Z.to_nat ((55 - len) mod 64) in
  msg ++ [0x80] ++ repeat 0 zeros ++ be_bytes 8 ((8 * len) mod 2 ^ 64).

Fixpoint words (bytes : list Z) : list Z :=
  match bytes with
  | b0 :: b1 :: b2 :: b3 :: rest =>
      (((b0 * 256 + b1) * 256 + b2) * 256 + b3) :: words rest
  | _ => []
  end.

Fixpoint blocks (fuel : nat) (ws : list Z) : list (list Z) :=
  match fuel with
  | O => []
  | S fuel' =>
      match ws with
      | [] => []
      | _ => firstn 16 ws :: blocks fuel' (skipn 16 ws)
      end
  end.

(** The message schedule: [extend n w] appends [n] words to the words so far. *)
Fixpoint extend (n : nat) (w : list Z) : list Z :=
  match n with
  | O => w
  | S n' =>
      let t := List.length w in
      let at_ (k : nat) := nth (t - k) w 0 in
      extend n' (w ++ [add32 (add32 (sigma1 (at_ 2%nat)) (at_ 7%nat))
                             (add32 (sigma0 (at_ 15%nat)) (at_ 16%nat))])
  end.

Definition round (s : state) (kw : Z * Z) : state :=
  let '(k, w) := kw in
  let t1 := add32 (add32 (add32 (hh s) (Sigma1 (he s))) (add32 (Ch (he s) (hf s) (hg s)) k)) w in
  let t2 := add32 (Sigma0 (ha s)) (Maj (ha s) (hb s) (hc s)) in
  mk_state (add32 t1 t2) (ha s) (hb s) (hc s) (add32 (hd s) t1) (he s) (hf s) (hg s).

Definition compress (h : state) (block : list Z) : state :=
  let s := fold_left round (combine K (extend 48 block)) h in
  mk_state (add32 (ha h) (ha s)) (add32 (hb h) (hb s)) (add32 (hc h) (hc s))
           (add32 (hd h) (hd s)) (add32 (he h) (he s)) (add32 (hf h) (hf s))
           (add32 (hg h) (hg s)) (add32 (hh h) (hh s)).

Definition digest (msg : list Z) : state :=
  let ws := words (pad msg) in
  fold_left compress (blocks (List.length ws) ws) H0.

Definition state_words (s : state) : list Z :=
  [ha s; hb s; hc s; hd s; he s; hf s; hg s; hh s].

(** [hexdigest]: eight lower-case hexadecimal digits per word. *)
Definition hex_digit (d : Z) : ascii :=
  if d <? 10 then ascii_of_N (Z.to_N (48 + d)) else ascii_of_N (Z.to_N (87 + d)).

Fixpoint hex_word (n : nat) (x : Z) (acc : string) : string :=
  match n with
  | O => acc
  | S n' => hex_word n' (x / 16) (String (hex_digit (x mod 16)) acc)
  end.

Definition hex_words (ws : list Z) : string :=
  fold_right (fun w acc => hex_word 8 w acc) EmptyString ws.

Definition bytes_of_string (s : string) : list Z :=
  map (fun c => Z.of_N (N_of_ascii c)) (list_ascii_of_string s).

Definition hexdigest (s : string) : string :=
  hex_words (state_words (digest (bytes_of_string s))).

End SHA256.

(** ** Values returned to Python *)

Inductive pyval : Type :=
  | PyNone
  | PyBool (b : bool)
  | PyInt (z : Z).

(** Python's truth value of a result, as [if user_id:] tests it. *)
Definition truthy (v : pyval) : bool :=
  match v with
  | PyNone => false
  | PyBool b => b
  | PyInt z => negb (z =? 0)
  end.

(** A call returns a value or raises.  The sqlite3 module raises OverflowError
    when an [int] bound to a statement is not a signed 64-bit integer; the
    statement is not run. *)
Inductive py_exception : Type := OverflowError.

Inductive py_result : Type :=
  | Returned (v : pyval)
  | Raised (e : py_exception).

Definition int64 (z : Z) : bool := (- 2 ^ 63 <=? z) && (z <=? 2 ^ 63 - 1).

(** ** The store: kolam_art.db *)

Record user_row : Type := mk_user
  { u_id : Z; u_username : string; u_password : string; u_created_at : string }.

Record artwork_row : Type := mk_artwork
  { a_id : Z; a_user_id : Z; a_title : string; a_image_data : string;
    a_likes : Z; a_created_at : string }.

Record comment_row : Type := mk_comment
  { c_id : Z; c_artwork_id : Z; c_user_id : Z; c_comment : string; c_created_at : string }.

Record DB : Type := mk_db
  { users : list user_row; artworks : list artwork_row; comments : list comment_row }.

Definition empty_db : DB := mk_db [] [] [].

(** [init_db]: [sqlite3.connect] creates the file when there is none, and the
    three CREATE TABLE IF NOT EXISTS statements leave existing tables alone. *)
Definition init_db (file : option DB) : DB :=
  match file with
  | None => empty_db
  | Some db => db
  end.

(** *** SQLite statements *)

Inductive sql_error : Type := IntegrityError.

Inductive sql_result (A : Type) : Type :=
  | Done (a : A)
  | Raise (e : sql_error).
Arguments Done {A} a.
Arguments Raise {A} e.

(** An INTEGER PRIMARY KEY column left out of an INSERT takes the largest
    rowid of the table plus one, and 1 in an empty table. *)
Definition next_rowid (ids : list Z) : Z :=
  match ids with
  | [] => 1
  | i :: rest => fold_left Z.max rest i + 1
  end.

(** INSERT INTO users (username, password, created_at) VALUES (?, ?, ?):
    the UNIQUE constraint on username rejects the row when the index already
    holds the username. *)
Definition insert_user (username password created_at : string) (db : DB)
  : sql_result DB :=
  if existsb (fun u => u_username u =? username)%string (users db)
  then Raise IntegrityError
  else Done (mk_db (users db
                      ++ [mk_user (next_rowid (map u_id (users db)))
                                  username password created_at])
                   (artworks db) (comments db)).

(** INSERT INTO artworks (user_id, title, image_data, created_at) VALUES (?, ?, ?, ?):
    likes takes its DEFAULT 0.  No statement of the program turns on
    PRAGMA foreign_keys, so SQLite does not check the REFERENCES clause. *)
Definition insert_artwork (user_id : Z) (title image_data created_at : string) (db : DB)
  : DB :=
  mk_db (users db)
        (artworks db
           ++ [mk_artwork (next_rowid (map a_id (artworks db)))
                          user_id title image_data 0 created_at])
        (comments db).

(** SELECT id FROM users WHERE username = ? AND password = ?, then fetchone(). *)
Definition select_user_id (username password : string) (db : DB) : option Z :=
  match filter (fun u => (u_username u =? username)%string
                         && (u_password u =? password)%string) (users db) with
  | [] => None
  | u :: _ => Some (u_id u)
  end.

(** UPDATE artworks SET likes = likes + 1 WHERE id = ? *)
Definition update_likes (artwork_id : Z) (db : DB) : DB :=
  mk_db (users db)
        (map (fun a => if a_id a =? artwork_id
                       then mk_artwork (a_id a) (a_user_id a) (a_title a) (a_image_data a)
                                       (a_likes a + 1) (a_created_at a)
                       else a)
             (artworks db))
        (comments db).

(** A row of the gallery query:
    a.id, a.title, a.image_data, a.likes, a.created_at, u.username. *)
Record gallery_row : Type := mk_row
  { g_id : Z; g_title : string; g_image_data : string; g_likes : Z;
    g_created_at : string; g_artist : string }.

Definition join_row (a : artwork_row) (u : user_row) : gallery_row :=
  mk_row (a_id a) (a_title a) (a_image_data a) (a_likes a) (a_created_at a) (u_username u).

(** FROM artworks a JOIN users u ON a.user_id = u.id: for each artwork of the
    scan, the users whose id is its user_id. *)
Definition join_artworks_users (db : DB) : list gallery_row :=
  flat_map (fun a => map (join_row a) (filter (fun u => u_id u =? a_user_id a) (users db)))
           (artworks db).

(** ORDER BY a.created_at DESC.  SQLite's sorter is a merge sort that compares
    the ORDER BY key alone and keeps rows with equal keys in the order they were
    fed to it; the sort below gives the same sequence. *)
Fixpoint insert_desc (r : gallery_row) (sorted : list gallery_row) : list gallery_row :=
  match sorted with
  | [] => [r]
  | r' :: rest =>
      if String.ltb (g_created_at r) (g_created_at r')
      then r' :: insert_desc r rest
      else r :: sorted
  end.

Definition order_by_created_at_desc (rows : list gallery_row) : list gallery_row :=
  fold_right insert_desc [] rows.

Definition select_gallery (db : DB) : list gallery_row :=
  order_by_created_at_desc (join_artworks_users db).

(** ** Authentication functions *)

Definition hash_password (password : string) : string :=
  SHA256.hexdigest password.

Definition create_user (username password now : string) (db : DB) : DB * pyval :=
  match insert_user username (hash_password password) now db with
  | Done db' => (db', PyBool true)
  | Raise IntegrityError => (db, PyBool false)
  end.

Definition authenticate_user (username password : string) (db : DB) : pyval :=
  match select_user_id username (hash_password password) db with
  | Some id => PyInt id
  | None => PyNone
  end.

(** ** Artwork functions *)

Definition save_artwork (user_id : Z) (title image_data now : string) (db : DB)
  : DB * py_result :=
  if int64 user_id
  then (insert_artwork user_id title image_data now db, Returned PyNone)
  else (db, Raised OverflowError).

Definition get_artworks (db : DB) : list gallery_row :=
  select_gallery db.

Definition like_artwork (artwork_id : Z) (db : DB) : DB * py_result :=
  if int64 artwork_id
  then (update_likes artwork_id db, Returned PyNone)
  else (db, Raised OverflowError).

(** ** The Community Gallery page *)

Inductive sort_option : Type := Newest | MostLiked.

(** Python's [needle in hay] on strings. *)
Fixpoint contains (needle hay : string) : bool :=
  String.prefix needle hay
  || match hay with
     | EmptyString => false
     | String _ hay' => contains needle hay'
     end.

Section Gallery.

(** [str.lower] of the Python runtime. *)
Variable lower : string -> string.

(** The body of [for artwork in artworks]: the cards that are rendered, in
    order; [continue] skips a row. *)
Fixpoint gallery_loop (search_term : string) (rows : list gallery_row)
  : list gallery_row :=
  match rows with
  | [] => []
  | artwork :: rest =>
      if negb (search_term =? "")%string
         && negb (contains (lower search_term) (lower (g_title artwork)))
         && negb (contains (lower search_term) (lower (g_artist artwork)))
      then gallery_loop search_term rest
      else artwork :: gallery_loop search_term rest
  end.

(** The page: both widgets are read, [sort_by] is not used afterwards. *)
Definition gallery_page (search_term : string) (sort_by : sort_option) (db : DB)
  : list gallery_row :=
  let artworks := get_artworks db in
  match artworks with
  | [] => []
  | _ => gallery_loop search_term artworks
  end.

(** The filter in the specification's words: a row is kept when its title
    or its owner's username contains the term, case folded; an empty term
    keeps everything. *)
Definition contains_ci (term text : string) : bool :=
  contains (lower term) (lower text).

Definition filterBySearchTerm (results : list gallery_row) (term : string)
  : list gallery_row :=
  if (term =? "")%string then results
  else filter (fun r => contains_ci term (g_title r) || contains_ci term (g_artist r))
              results.

(** ** The application: browser sessions over one store *)

Record session_state : Type := mk_session
  { ss_user_id : pyval; ss_username : option string }.

Definition logged_out : session_state := mk_session PyNone None.

Record app_state : Type := mk_app
  { store : DB; sessions : nat -> session_state }.

Definition initial_app : app_state :=
  mk_app (init_db None) (fun _ => logged_out).

Definition set_session (sid : nat) (s : session_state) (ss : nat -> session_state)
  : nat -> session_state :=
  fun k => if Nat.eqb k sid then s else ss k.

(** What a user can do in one run of the script. *)
Inductive event : Type :=
  | SignUp (username password now : string)
  | Login (username password : string)
  | Logout
  | SaveArtwork (title image_data now : string)
  | Like (search_term : string) (sort_by : sort_option) (artwork_id : Z).

(** One run of the script in session [sid].  A button that the page does not
    render in the current state cannot be pressed: the state stays.  A call
    that raises ends the run with the store as it was. *)
Definition app_step (st : app_state) (sid : nat) (ev : event) : app_state :=
  let me := sessions st sid in
  match ev with
  | SignUp username password now =>
      match ss_user_id me with
      | PyNone => mk_app (fst (create_user username password now (store st))) (sessions st)
      | _ => st
      end
  | Login username password =>
      match ss_user_id me with
      | PyNone =>
          let user_id := authenticate_user username password (store st) in
          if truthy user_id
          then mk_app (store st)
                      (set_session sid (mk_session user_id (Some username)) (sessions st))
          else st
      | _ => st
      end
  | Logout =>
      match ss_user_id me with
      | PyNone => st
      | _ => mk_app (store st) (set_session sid logged_out (sessions st))
      end
  | SaveArtwork title image_data now =>
      match ss_user_id me with
      | PyInt user_id =>
          if truthy (PyInt user_id)
          then mk_app (fst (save_artwork user_id title image_data now (store st)))
                      (sessions st)
          else st
      | _ => st
      end
  | Like search_term sort_by artwork_id =>
      if existsb (fun r => g_id r =? artwork_id)
                 (gallery_page search_term sort_by (store st))
      then mk_app (fst (like_artwork artwork_id (store st))) (sessions st)
      else st
  end.

Definition run_app (evs : list (nat * event)) : app_state :=
  fold_left (fun st e => app_step st (fst e) (snd e)) evs initial_app.

End Gallery.

(** [str.lower] on ASCII text, for running the page on examples. *)
Definition ascii_lower_char (c : ascii) : ascii :=
  let n := N_of_ascii c in
  if ((65 <=? n) && (n <=? 90))%N then ascii_of_N (n + 32) else c.

Fixpoint ascii_lower (s : string) : string :=
  match s with
  | EmptyString => EmptyString
  | String c s' => String (ascii_lower_char c) (ascii_lower s')
  end.

(** ** Calls from independent callers *)

Inductive call : Type :=
  | CallCreateUser (username password now : string)
  | CallAuthenticateUser (username password : string)
  | CallSaveArtwork (user_id : Z) (title image_data now : string)
  | CallGetArtworks
  | CallLikeArtwork (artwork_id : Z).

(** Each function issues one data statement between [connect] and [commit]:
    a call is one transaction on the store. *)
Definition run_call (c : call) (db : DB) : DB :=
  match c with
  | CallCreateUser username password now => fst (create_user username password now db)
  | CallAuthenticateUser _ _ => db
  | CallSaveArtwork user_id title image_data now =>
      fst (save_artwork user_id title image_data now db)
  | CallGetArtworks => db
  | CallLikeArtwork artwork_id => fst (like_artwork artwork_id db)
  end.

(** A serial order of the transactions. *)
Definition run_calls (cs : list call) (db : DB) : DB :=
  fold_left (fun d c => run_call c d) cs db.



(** ** Store invariants *)

(** Rowids grow along a table and usernames are unique. *)
Definition wf_db (db : DB) : Prop :=
  StronglySorted Z.lt (map u_id (users db))
  /\ StronglySorted Z.lt (map a_id (artworks db))
  /\ NoDup (map u_username (users db))
  /\ Forall (fun i => 0 < i) (map u_id (users db)).

(** Every artwork has its owner in the users table. *)
Definition owners_exist (db : DB) : Prop :=
  forall a, In a (artworks db) -> exists u, In u (users db) /\ u_id u = a_user_id a.

Definition owner_of (db : DB) (a : artwork_row) : option user_row :=
  find (fun u => u_id u =? a_user_id a) (users db).

Definition joined (db : DB) (a : artwork_row) : option gallery_row :=
  option_map (join_row a) (owner_of db a).

(** Newest first, and among equal creation times the smaller rowid (the row
    inserted earlier) first. *)
Definition gallery_before (r1 r2 : gallery_row) : Prop :=
  String.ltb (g_created_at r2) (g_created_at r1) = true
  \/ (g_created_at r1 = g_created_at r2 /\ g_id r1 < g_id r2).



(** What every run of the script keeps: the store is well formed, every
    artwork has its owner, and a logged-in session holds the id of a user. *)
Definition app_invariant (st : app_state) : Prop :=
  wf_db (store st)
  /\ owners_exist (store st)
  /\ forall sid z, ss_user_id (sessions st sid) = PyInt z ->
                   exists u, In u (users (store st)) /\ u_id u = z.

(** ** Digests as numbers, and a family of passwords *)

(** The eight words of a hash value as one number in base 2^32. *)
Definition state_number (s : SHA256.state) : Z :=
  fold_left (fun acc w => acc * SHA256.w32 + w) (SHA256.state_words s) 0.

Definition state_ok (s : SHA256.state) : Prop :=
  Forall (fun w => 0 <= w < SHA256.w32) (SHA256.state_words s).

(** The password of [n] characters 0 and 1 that spells the low [n] binary
    digits of [z], lowest first. *)
Fixpoint bits_password (n : nat) (z : Z) : string :=
  match n with
  | O => EmptyString
  | S n' => String (if Z.odd z then "1"%char else "0"%char) (bits_password n' (z / 2))
  end.

(** ** The Account page *)

(** A row of SELECT title, image_data, likes, created_at FROM artworks. *)
Record account_row : Type := mk_account_row
  { r_title : string; r_image_data : string; r_likes : Z; r_created_at : string }.

Definition account_row_of (a : artwork_row) : account_row :=
  mk_account_row (a_title a) (a_image_data a) (a_likes a) (a_created_at a).

(** WHERE user_id = ?, over the scan of artworks. *)
Definition artworks_of (user_id : Z) (db : DB) : list artwork_row :=
  filter (fun a => a_user_id a =? user_id) (artworks db).

(** SELECT COUNT( * ) FROM artworks WHERE user_id = ? *)
Definition select_count (user_id : Z) (db : DB) : Z :=
  Z.of_nat (List.length (artworks_of user_id db)).

(** SELECT SUM(likes) FROM artworks WHERE user_id = ?: NULL when no row
    matches. *)
Definition select_sum_likes (user_id : Z) (db : DB) : option Z :=
  match artworks_of user_id db with
  | [] => None
  | rows => Some (fold_left Z.add (map a_likes rows) 0)
  end.

(** Python's [x or 0] on the fetched value: [None] and 0 both give 0. *)
Definition or_zero (v : option Z) : Z :=
  match v with
  | None => 0
  | Some z => if z =? 0 then 0 else z
  end.

(** ORDER BY created_at DESC on the rows of the account query, as SQLite's
    sorter orders them (see [insert_desc]). *)
Fixpoint insert_account_desc (r : account_row) (sorted : list account_row)
  : list account_row :=
  match sorted with
  | [] => [r]
  | r' :: rest =>
      if String.ltb (r_created_at r) (r_created_at r')
      then r' :: insert_account_desc r rest
      else r :: sorted
  end.

Definition select_user_artworks (user_id : Z) (db : DB) : list account_row :=
  fold_right insert_account_desc [] (map account_row_of (artworks_of user_id db)).

(** What the page shows: nothing but a notice without a login, otherwise
    the two metrics and the list of the user's artworks. *)
Record account_view : Type := mk_account_view
  { artwork_count : Z; total_likes : Z; user_artworks : list account_row }.

Inductive account_result : Type :=
  | PleaseLogin
  | AccountShown (v : account_view)
  | AccountRaised (e : py_exception).

(** The page runs its three SELECT statements one after the other, each a
    read of its own, on two connections: [db_count], [db_sum] and [db_list]
    are the store as the first, the second and the third statement find it;
    other sessions may have written in between.  The user_id is bound to each
    statement. *)
Definition account_page (me : session_state) (db_count db_sum db_list : DB)
  : account_result :=
  match ss_user_id me with
  | PyInt user_id =>
      if truthy (PyInt user_id)
      then if int64 user_id
           then AccountShown
                  (mk_account_view (select_count user_id db_count)
                                   (or_zero (select_sum_likes user_id db_sum))
                                   (select_user_artworks user_id db_list))
           else AccountRaised OverflowError
      else PleaseLogin
  | _ => PleaseLogin
  end.

(** ** datetime.datetime.now().isoformat() *)

Record datetime : Type := mk_datetime
  { year : Z; month : Z; day : Z; hour : Z; minute : Z; second : Z; microsecond : Z }.

Definition is_leap (y : Z) : bool :=
  ((y mod 4 =? 0) && negb (y mod 100 =? 0)) || (y mod 400 =? 0).

Definition days_in_month (y m : Z) : Z :=
  if m =? 2 then (if is_leap y then 29 else 28)
  else if (m =? 4) || (m =? 6) || (m =? 9) || (m =? 11) then 30
  else 31.

(** The values a [datetime] object can hold. *)
Definition valid_datetime (d : datetime) : Prop :=
  1 <= year d <= 9999 /\ 1 <= month d <= 12
  /\ 1 <= day d <= days_in_month (year d) (month d)
  /\ 0 <= hour d <= 23 /\ 0 <= minute d <= 59 /\ 0 <= second d <= 59
  /\ 0 <= microsecond d <= 999999.

Definition digit_char (d : Z) : ascii := ascii_of_N (Z.to_N (48 + d)).

(** [n] in [width] decimal digits, zero padded, in front of [rest]. *)
Fixpoint zero_padded (width : nat) (n : Z) (rest : string) : string :=
  match width with
  | O => rest
  | S w => zero_padded w (n / 10) (String (digit_char (n mod 10)) rest)
  end.

(** YYYY-MM-DDTHH:MM:SS, and .ffffff when the microsecond is not 0. *)
Definition isoformat (d : datetime) : string :=
  zero_padded 4 (year d) (String "-"
    (zero_padded 2 (month d) (String "-"
      (zero_padded 2 (day d) (String "T"
        (zero_padded 2 (hour d) (String ":"
          (zero_padded 2 (minute d) (String ":"
            (zero_padded 2 (second d)
              (if microsecond d =? 0 then EmptyString
               else String "." (zero_padded 6 (microsecond d) EmptyString)))))))))))).

(** Chronological comparison of two datetimes, field by field. *)
Definition datetime_compare (d1 d2 : datetime) : comparison :=
  match year d1 ?= year d2 with
  | Eq => match month d1 ?= month d2 with
    | Eq => match day d1 ?= day d2 with
      | Eq => match hour d1 ?= hour d2 with
        | Eq => match minute d1 ?= minute d2 with
          | Eq => match second d1 ?= second d2 with
            | Eq => microsecond d1 ?= microsecond d2
            | c => c end
          | c => c end
        | c => c end
      | c => c end
    | c => c end
  | c => c end.

(** Python's [s[:n]]. *)
Fixpoint slice_to (n : nat) (s : string) : string :=
  match n, s with
  | S n', String c s' => String c (slice_to n' s')
  | _, _ => EmptyString
  end.

(** The caption of a gallery card: [created_at[:10]]. *)
Definition created_caption (r : gallery_row) : string :=
  slice_to 10 (g_created_at r).

(** The date part of a timestamp: YYYY-MM-DD. *)
Definition isodate (d : datetime) : string :=
  zero_padded 4 (year d) (String "-"
    (zero_padded 2 (month d) (String "-" (zero_padded 2 (day d) EmptyString)))).

(** The characters of a lower-case hexadecimal numeral. *)
Definition is_hex_char (c : ascii) : bool :=
  let n := N_of_ascii c in
  (((48 <=? n) && (n <=? 57)) || ((97 <=? n) && (n <=? 102)))%N.

Fixpoint all_hex (s : string) : bool :=
  match s with
  | EmptyString => true
  | String c s' => is_hex_char c && all_hex s'
  end.

(** What an artwork row is, apart from its like counter. *)
Definition artwork_identity (a : artwork_row) : Z * Z * string * string * string :=
  (a_id a, a_user_id a, a_title a, a_image_data a, a_created_at a).

(** The rowids 1, 2, ..., n. *)
Definition rowids (n : nat) : list Z := map Z.of_nat (seq 1 n).

(** A gallery row after [like_artwork artwork_id]: one more like when it is
    the row of that artwork, and the call did not raise. *)
Definition liked (artwork_id : Z) (r : gallery_row) : gallery_row :=
  if int64 artwork_id && (g_id r =? artwork_id)
  then mk_row (g_id r) (g_title r) (g_image_data r) (g_likes r + 1) (g_created_at r)
              (g_artist r)
  else r.

(** What the Account page shows of a gallery row. *)
Definition account_row_of_gallery (r : gallery_row) : account_row :=
  mk_account_row (g_title r) (g_image_data r) (g_likes r) (g_created_at r).

(** Rows from the newest creation time down: no row is older than a row
    after it. *)
Definition newest_first (rows : list gallery_row) : Prop :=
  StronglySorted (fun r1 r2 => String.ltb (g_created_at r1) (g_created_at r2) = false) rows.

(** A session is logged out with both fields [None], or holds the id (at least
    1) and the username of one row of the users table. *)
Definition session_matches (db : DB) (s : session_state) : Prop :=
  match ss_user_id s, ss_username s with
  | PyNone, None => True
  | PyInt z, Some name =>
      0 < z /\ exists row, In row (users db) /\ u_id row = z /\ u_username row = name
  | _, _ => False
  end.

(** The ids that SQLite stores are signed 64-bit integers. *)
Definition ids_are_int64 (db : DB) : Prop :=
  Forall (fun i => int64 i = true) (map u_id (users db))
  /\ Forall (fun i => int64 i = true) (map a_id (artworks db)).

(** The pair (artwork, ownerUsername) of a stored artwork as a gallery row: the
    columns of the artwork and the username of the user whose id is its
    user_id. *)
Definition listed_row (db : DB) (a : artwork_row) : gallery_row :=
  mk_row (a_id a) (a_title a) (a_image_data a) (a_likes a) (a_created_at a)
         (match owner_of db a with
          | Some u => u_username u
          | None => EmptyString
          end).

(** ** str.lower *)

(** A [str] is held as its UTF-8 bytes; [str.lower] works on code points. *)
Definition byte_of (c : ascii) : Z := Z.of_N (N_of_ascii c).
Definition char_of (z : Z) : ascii := ascii_of_N (Z.to_N z).

(** The code points of the UTF-8 of a str (on bytes that are the UTF-8 of no
    str the result has no meaning). *)
Fixpoint utf8_decode (s : string) : list Z :=
  match s with
  | EmptyString => []
  | String c0 rest =>
      let b0 := byte_of c0 in
      if b0 <? 128 then b0 :: utf8_decode rest
      else
        match rest with
        | EmptyString => [b0]
        | String c1 rest1 =>
            let b1 := byte_of c1 in
            if b0 <? 224 then (b0 mod 32 * 64 + b1 mod 64) :: utf8_decode rest1
            else
              match rest1 with
              | EmptyString => b0 :: utf8_decode rest
              | String c2 rest2 =>
                  let b2 := byte_of c2 in
                  if b0 <? 240
                  then ((b0 mod 16 * 64 + b1 mod 64) * 64 + b2 mod 64) :: utf8_decode rest2
                  else
                    match rest2 with
                    | EmptyString => b0 :: utf8_decode rest
                    | String c3 rest3 =>
                        (((b0 mod 8 * 64 + b1 mod 64) * 64 + b2 mod 64) * 64
                         + byte_of c3 mod 64) :: utf8_decode rest3
                    end
              end
        end
  end.

Definition utf8_encode_one (c : Z) (rest : string) : string :=
  if c <? 128 then String (char_of c) rest
  else if c <? 2048
  then String (char_of (192 + c / 64)) (String (char_of (128 + c mod 64)) rest)
  else if c <? 65536
  then String (char_of (224 + c / 4096))
         (String (char_of (128 + c / 64 mod 64)) (String (char_of (128 + c mod 64)) rest))
  else String (char_of (240 + c / 262144))
         (String (char_of (128 + c / 4096 mod 64))
            (String (char_of (128 + c / 64 mod 64)) (String (char_of (128 + c mod 64)) rest))).

Definition utf8_encode (cps : list Z) : string :=
  fold_right utf8_encode_one EmptyString cps.

Section StrLower.

(** The rows of the Unicode character database that [str.lower] reads: the
    full lower-case mapping and the properties Cased and Case_Ignorable. *)
Variable to_lower_full : Z -> list Z.
Variable is_cased : Z -> bool.
Variable is_case_ignorable : Z -> bool.

Fixpoint skip_case_ignorable (cps : list Z) : list Z :=
  match cps with
  | c :: rest => if is_case_ignorable c then skip_case_ignorable rest else cps
  | [] => []
  end.

(** The capital sigma U+03A3 becomes the final sigma U+03C2 when a cased
    letter comes before it and none after it, case-ignorable characters
    skipped; otherwise the small sigma U+03C3. *)
Definition capital_sigma (before_reversed after : list Z) : Z :=
  let preceded := match skip_case_ignorable before_reversed with
                  | c :: _ => is_cased c
                  | [] => false
                  end in
  let followed := match skip_case_ignorable after with
                  | c :: _ => is_cased c
                  | [] => false
                  end in
  if preceded && negb followed then 962 else 963.

Fixpoint lower_from (before_reversed : list Z) (cps : list Z) : list Z :=
  match cps with
  | [] => []
  | c :: rest =>
      (if c =? 931 then [capital_sigma before_reversed rest] else to_lower_full c)
      ++ lower_from (c :: before_reversed) rest
  end.

Definition str_lower (s : string) : string :=
  utf8_encode (lower_from [] (utf8_decode s)).

End StrLower.

(** The database rows for Basic Latin and for the Greek letters U+0391 to
    U+03A9 and U+03B1 to U+03C9.  The rows of other code points are not given
    here: they are returned as they are and count as neither cased nor
    case-ignorable. *)
Definition ucd_to_lower (c : Z) : list Z :=
  if ((65 <=? c) && (c <=? 90))
     || ((913 <=? c) && (c <=? 929)) || ((931 <=? c) && (c <=? 937))
  then [c + 32] else [c].

Definition ucd_cased (c : Z) : bool :=
  ((65 <=? c) && (c <=? 90)) || ((97 <=? c) && (c <=? 122))
  || ((913 <=? c) && (c <=? 929)) || ((931 <=? c) && (c <=? 937))
  || ((945 <=? c) && (c <=? 969)).

Definition ucd_case_ignorable (c : Z) : bool :=
  (c =? 39) || (c =? 46) || (c =? 58) || (c =? 94) || (c =? 96).

Definition py_lower : string -> string :=
  str_lower ucd_to_lower ucd_cased ucd_case_ignorable.

(** *** Letter case of ASCII text *)

Fixpoint is_ascii (s : string) : bool :=
  match s with
  | EmptyString => true
  | String c s' => (N_of_ascii c <? 128)%N && is_ascii s'
  end.

Definition is_upper_ascii (c : ascii) : bool :=
  ((65 <=? N_of_ascii c) && (N_of_ascii c <=? 90))%N.

(** The same character, or a capital letter and its small letter. *)
Definition same_letter (c d : ascii) : bool :=
  (c =? d)%char
  || (is_upper_ascii c && (N_of_ascii d =? N_of_ascii c + 32)%N)
  || (is_upper_ascii d && (N_of_ascii c =? N_of_ascii d + 32)%N).

Fixpoint same_ignoring_case (s t : string) : bool :=
  match s, t with
  | EmptyString, EmptyString => true
  | String c s', String d t' => same_letter c d && same_ignoring_case s' t'
  | _, _ => false
  end.

(** [text] contains [term] as a case-insensitive substring. *)
Definition occurs_ignoring_case (term text : string) : Prop :=
  exists pre mid post,
    text = String.append pre (String.append mid post)
    /\ same_ignoring_case mid term = true.

(** * Properties *)

Arguments hash_password : simpl never.

(** ** Test vectors of the digest *)

Example sha256_constants :
  nth 0 SHA256.K 0 = 0x428a2f98 /\ nth 63 SHA256.K 0 = 0xc67178f2
  /\ SHA256.ha SHA256.H0 = 0x6a09e667 /\ SHA256.hh SHA256.H0 = 0x5be0cd19.
Proof. repeat split. Qed.

Example sha256_abc :
  SHA256.hexdigest "abc"
  = "ba7816bf8f01cfea414140de5dae2223b00361a396177a9cb410ff61f20015ad".
Proof. vm_compute. reflexivity. Qed.

Example sha256_empty :
  SHA256.hexdigest ""
  = "e3b0c44298fc1c149afbf4c8996fb92427ae41e4649b934ca495991b7852b855".
Proof. vm_compute. reflexivity. Qed.

Example sha256_two_blocks :
  SHA256.hexdigest "abcdbcdecdefdefgefghfghighijhijkijkljklmklmnlmnomnopnopq"
  = "248d6a61d20638b8e5c026930c3e6039a33ce45964ff2167f6ecedd419db06c1".
Proof. vm_compute. reflexivity. Qed.

Example hash_password_pass123 :
  hash_password "pass123"
  = "9b8769a4a742959a2d0298c36fb70623f2dfacda8436237df08d8dfd5b37374c".
Proof. vm_compute. reflexivity. Qed.

(** ** Row ids *)

Lemma fold_max_ge (l : list Z) (i : Z) : i <= fold_left Z.max l i.
Proof.
  revert i; induction l as [|x l IH]; intros i; simpl.
  - lia.
  - specialize (IH (Z.max i x)). lia.
Qed.

Lemma fold_max_upper (l : list Z) (i : Z) :
  forall x, In x l -> x <= fold_left Z.max l i.
Proof.
  revert i; induction l as [|y l IH]; intros i x Hx; simpl in *.
  - contradiction.
  - destruct Hx as [->|Hx].
    + pose proof (fold_max_ge l (Z.max i x)). lia.
    + now apply IH.
Qed.

Lemma next_rowid_above (ids : list Z) :
  forall x, In x ids -> x < next_rowid ids.
Proof.
  destruct ids as [|i rest]; intros x Hx; simpl in *.
  - contradiction.
  - destruct Hx as [->|Hx].
    + pose proof (fold_max_ge rest x). lia.
    + pose proof (fold_max_upper rest i x Hx). lia.
Qed.

Lemma next_rowid_fresh (ids : list Z) : ~ In (next_rowid ids) ids.
Proof.
  intros H. apply next_rowid_above in H. lia.
Qed.

Lemma next_rowid_positive (ids : list Z) :
  Forall (fun i => 0 < i) ids -> 0 < next_rowid ids.
Proof.
  intros H. destruct ids as [|i rest]; simpl; [lia|].
  inversion H; subst. pose proof (fold_max_ge rest i). lia.
Qed.

(** ** Account service *)

Lemma existsb_username_false (us : list user_row) (username : string) :
  (forall u, In u us -> u_username u <> username) ->
  existsb (fun u => (u_username u =? username)%string) us = false.
Proof.
  intros H. induction us as [|u us IH]; simpl; [reflexivity|].
  rewrite (proj2 (String.eqb_neq _ _)) by (apply H; now left).
  apply IH. intros v Hv. apply H. now right.
Qed.

Lemma existsb_username_true (us : list user_row) (username : string) :
  (exists u, In u us /\ u_username u = username) ->
  existsb (fun u => (u_username u =? username)%string) us = true.
Proof.
  intros [u [Hin Hu]]. apply existsb_exists. exists u. split; [exact Hin|].
  now apply String.eqb_eq.
Qed.

Lemma filter_username_nil (us : list user_row) (username password : string) :
  (forall u, In u us -> u_username u <> username) ->
  filter (fun u => (u_username u =? username)%string && (u_password u =? password)%string) us
  = [].
Proof.
  intros H. induction us as [|u us IH]; simpl; [reflexivity|].
  rewrite (proj2 (String.eqb_neq _ _)) by (apply H; now left). simpl.
  apply IH. intros v Hv. apply H. now right.
Qed.

(** C2: signing up with a username that is not taken succeeds, the new row gets
    the next rowid, and logging in with the same credentials returns that id. *)
Theorem create_then_authenticate (db : DB) (username password now : string) :
  (forall u, In u (users db) -> u_username u <> username) ->
  let new_id := next_rowid (map u_id (users db)) in
  let db' := fst (create_user username password now db) in
  snd (create_user username password now db) = PyBool true
  /\ users db' = users db ++ [mk_user new_id username (hash_password password) now]
  /\ ~ In new_id (map u_id (users db))
  /\ authenticate_user username password db' = PyInt new_id.
Proof.
  intros Hfree new_id db'. subst db'.
  unfold create_user, authenticate_user, insert_user, select_user_id.
  generalize (hash_password password); intros h.
  rewrite (existsb_username_false _ _ Hfree). cbn [fst snd users].
  repeat split.
  - apply next_rowid_fresh.
  - rewrite filter_app, (filter_username_nil _ _ _ Hfree).
    cbn [filter app u_username u_password]. rewrite !String.eqb_refl. reflexivity.
Qed.

Lemma create_then_authenticate_witness :
  authenticate_user "asha" "pass123"
    (fst (create_user "asha" "pass123" "2024-01-01T10:00:00" empty_db))
  = PyInt 1.
Proof.
  apply (create_then_authenticate empty_db "asha" "pass123" "2024-01-01T10:00:00").
  simpl. intros u [].
Defined.

(** C3: with the username already in the table the INSERT raises
    IntegrityError from the UNIQUE constraint; [create_user] turns it into
    [False] and the store is the one before the call. *)
Theorem create_user_duplicate (db : DB) (username password now : string) :
  (exists u, In u (users db) /\ u_username u = username) ->
  insert_user username (hash_password password) now db = Raise IntegrityError
  /\ create_user username password now db = (db, PyBool false).
Proof.
  intros Hdup. unfold create_user, insert_user.
  rewrite (existsb_username_true _ _ Hdup). split; reflexivity.
Qed.

Lemma create_user_duplicate_witness :
  let db := fst (create_user "asha" "pass123" "2024-01-01T10:00:00" empty_db) in
  create_user "asha" "other" "2024-01-02T09:30:00" db = (db, PyBool false).
Proof.
  apply (create_user_duplicate
           (fst (create_user "asha" "pass123" "2024-01-01T10:00:00" empty_db))
           "asha" "other" "2024-01-02T09:30:00").
  eexists. split; [left; reflexivity|reflexivity].
Defined.

(** [create_user] has no branch of its own on the table: its result is the
    result of the INSERT. *)
Lemma create_user_follows_insert (db : DB) (username password now : string) :
  create_user username password now db
  = match insert_user username (hash_password password) now db with
    | Done db' => (db', PyBool true)
    | Raise _ => (db, PyBool false)
    end.
Proof.
  unfold create_user. destruct (insert_user _ _ _ _) as [db'|[]]; reflexivity.
Qed.

(** ** Artwork store *)

Lemma save_artwork_store (db : DB) (user_id : Z) (title image_data now : string) :
  fst (save_artwork user_id title image_data now db)
  = if int64 user_id then insert_artwork user_id title image_data now db else db.
Proof.
  unfold save_artwork. now destruct (int64 user_id).
Qed.

Lemma like_artwork_store (db : DB) (artwork_id : Z) :
  fst (like_artwork artwork_id db)
  = if int64 artwork_id then update_likes artwork_id db else db.
Proof.
  unfold like_artwork. now destruct (int64 artwork_id).
Qed.

(** C6 (as the code has it): for a user_id that is a signed 64-bit integer
    [save_artwork] appends exactly one row, with a rowid not in the table
    before, the given owner, title and image, likes 0 and the current
    timestamp; it leaves the other tables alone and returns [None].  For any
    other user_id it raises OverflowError and the store stays as it was. *)
Theorem save_artwork_inserts (db : DB) (user_id : Z) (title image_data now : string) :
  let new_id := next_rowid (map a_id (artworks db)) in
  let db' := fst (save_artwork user_id title image_data now db) in
  (int64 user_id = true ->
   artworks db' = artworks db ++ [mk_artwork new_id user_id title image_data 0 now]
   /\ ~ In new_id (map a_id (artworks db))
   /\ users db' = users db
   /\ comments db' = comments db
   /\ snd (save_artwork user_id title image_data now db) = Returned PyNone)
  /\ (int64 user_id = false ->
      save_artwork user_id title image_data now db = (db, Raised OverflowError)).
Proof.
  unfold save_artwork. split; intros E; rewrite E.
  - simpl. repeat split. apply next_rowid_fresh.
  - reflexivity.
Qed.

Lemma save_artwork_inserts_witness :
  let db := fst (create_user "asha" "pass123" "2024-01-01T10:00:00" empty_db) in
  artworks (fst (save_artwork 1 "Sunrise" "iVBORw0KGgo=" "2024-01-01T10:05:00" db))
  = [mk_artwork 1 1 "Sunrise" "iVBORw0KGgo=" 0 "2024-01-01T10:05:00"].
Proof.
  intros db.
  exact (proj1 (proj1 (save_artwork_inserts db 1 "Sunrise" "iVBORw0KGgo="
                         "2024-01-01T10:05:00") eq_refl)).
Defined.

(** C6 as stated fails: the call that creates artwork 1 returns [None], not 1;
    and with the user_id 2^63 the call raises and inserts nothing. *)
Lemma save_artwork_returns_none :
  let db := fst (create_user "asha" "pass123" "2024-01-01T10:00:00" empty_db) in
  let r := save_artwork 1 "Sunrise" "iVBORw0KGgo=" "2024-01-01T10:05:00" db in
  (map a_id (artworks (fst r)) = [1] /\ snd r <> Returned (PyInt 1))
  /\ save_artwork (2 ^ 63) "Sunrise" "iVBORw0KGgo=" "2024-01-01T10:05:00" db
     = (db, Raised OverflowError).
Proof.
  split; [split; [reflexivity|discriminate]|reflexivity].
Qed.

(** ** Likes *)

Lemma map_likes_id (artwork_id : Z) (l : list artwork_row) :
  (forall a, In a l -> a_id a <> artwork_id) ->
  map (fun a => if a_id a =? artwork_id
                then mk_artwork (a_id a) (a_user_id a) (a_title a) (a_image_data a)
                                (a_likes a + 1) (a_created_at a)
                else a) l = l.
Proof.
  intros H. induction l as [|a l IH]; simpl; [reflexivity|].
  rewrite (proj2 (Z.eqb_neq _ _)) by (apply H; now left).
  f_equal. apply IH. intros b Hb. apply H. now right.
Qed.

(** C10 (as the code has it): liking an id that no artwork has leaves the whole
    store as it was; the call returns normally when the id is a signed 64-bit
    integer and raises OverflowError otherwise. *)
Theorem like_unknown_artwork (db : DB) (artwork_id : Z) :
  (forall a, In a (artworks db) -> a_id a <> artwork_id) ->
  (int64 artwork_id = true -> like_artwork artwork_id db = (db, Returned PyNone))
  /\ (int64 artwork_id = false -> like_artwork artwork_id db = (db, Raised OverflowError)).
Proof.
  intros H. unfold like_artwork, update_likes. split; intros E; rewrite E.
  - rewrite (map_likes_id _ _ H). now destruct db.
  - reflexivity.
Qed.

Lemma like_unknown_artwork_witness :
  let db := fst (save_artwork 1 "Sunrise" "iVBORw0KGgo=" "2024-01-01T10:05:00"
                   (fst (create_user "asha" "pass123" "2024-01-01T10:00:00" empty_db))) in
  like_artwork 42 db = (db, Returned PyNone).
Proof.
  intros db.
  refine (proj1 (like_unknown_artwork db 42 _) eq_refl).
  subst db. simpl. intros a [<-|[]]. simpl. lia.
Defined.

(** C10 as stated fails: 2^63 is the id of no artwork, and liking it does not
    return: it raises OverflowError. *)
Lemma like_out_of_range_raises :
  (forall a, In a (artworks empty_db) -> a_id a <> 2 ^ 63)
  /\ like_artwork (2 ^ 63) empty_db = (empty_db, Raised OverflowError)
  /\ snd (like_artwork (2 ^ 63) empty_db) <> Returned PyNone.
Proof.
  split; [intros a []|split; [reflexivity|discriminate]].
Qed.

(** ** Gallery page: search filter and sort selector *)

Lemma prefix_spec (p s : string) :
  String.prefix p s = true <-> exists post, s = String.append p post.
Proof.
  revert s; induction p as [|c p IH]; intros s.
  - split; [intros _; now exists s|now destruct s].
  - destruct s as [|d s]; simpl.
    + split; [discriminate|intros [post H]; discriminate].
    + destruct (Ascii.ascii_dec c d) as [->|Hne].
      * split.
        -- intros H. apply IH in H. destruct H as [post H]. exists post. now rewrite H.
        -- intros [post H]. apply IH. exists post. now inversion H.
      * split; [discriminate|].
        intros [post H]. inversion H. congruence.
Qed.

(** [contains] is Python's substring test: the needle occurs between some
    prefix and some suffix of the text. *)
Lemma contains_spec (needle hay : string) :
  contains needle hay = true
  <-> exists pre post, hay = String.append pre (String.append needle post).
Proof.
  induction hay as [|c hay IH]; cbn [contains]; rewrite orb_true_iff.
  - split.
    + intros [H|H]; [|discriminate].
      apply prefix_spec in H. destruct H as [post H]. now exists EmptyString, post.
    + intros [pre [post H]]. left. apply prefix_spec.
      destruct pre; [now exists post|discriminate].
  - split.
    + intros [H|H].
      * apply prefix_spec in H. destruct H as [post H]. now exists EmptyString, post.
      * apply IH in H. destruct H as [pre [post H]].
        exists (String c pre), post. simpl. now rewrite H.
    + intros [pre [post H]]. destruct pre as [|d pre].
      * left. apply prefix_spec. now exists post.
      * right. apply IH. exists pre, post. now inversion H.
Qed.

(** *** Case-insensitive containment in ASCII text *)

Lemma lower_code (c : ascii) :
  N_of_ascii (ascii_lower_char c)
  = if is_upper_ascii c then (N_of_ascii c + 32)%N else N_of_ascii c.
Proof.
  unfold ascii_lower_char, is_upper_ascii.
  destruct ((65 <=? N_of_ascii c) && (N_of_ascii c <=? 90))%N eqn:E; [|reflexivity].
  apply andb_prop in E. destruct E as [_ E]. apply N.leb_le in E.
  apply N_ascii_embedding. lia.
Qed.

Lemma code_inj (c d : ascii) : N_of_ascii c = N_of_ascii d -> c = d.
Proof.
  intros H. rewrite <- (ascii_N_embedding c), <- (ascii_N_embedding d). now rewrite H.
Qed.

Lemma is_upper_ascii_spec (c : ascii) :
  (is_upper_ascii c = true /\ (65 <= N_of_ascii c <= 90)%N)
  \/ (is_upper_ascii c = false /\ (N_of_ascii c < 65 \/ 90 < N_of_ascii c)%N).
Proof.
  unfold is_upper_ascii.
  destruct (N.leb_spec 65 (N_of_ascii c)), (N.leb_spec (N_of_ascii c) 90); simpl;
    [left|right|right|right]; split; try reflexivity; lia.
Qed.

Lemma same_letter_lower (c d : ascii) :
  same_letter c d = true <-> ascii_lower_char c = ascii_lower_char d.
Proof.
  unfold same_letter. split.
  - intros H. apply code_inj. rewrite !lower_code.
    apply orb_prop in H. destruct H as [H|H]; [apply orb_prop in H; destruct H as [H|H]|].
    + apply Ascii.eqb_eq in H. now subst d.
    + apply andb_prop in H. destruct H as [U E]. apply N.eqb_eq in E. rewrite U.
      destruct (is_upper_ascii_spec c) as [[_ Bc]|[F _]]; [|congruence].
      destruct (is_upper_ascii_spec d) as [[_ Bd]|[Ud _]]; [lia|]. rewrite Ud. lia.
    + apply andb_prop in H. destruct H as [U E]. apply N.eqb_eq in E. rewrite U.
      destruct (is_upper_ascii_spec d) as [[_ Bd]|[F _]]; [|congruence].
      destruct (is_upper_ascii_spec c) as [[_ Bc]|[Uc _]]; [lia|]. rewrite Uc. lia.
  - intros H. apply (f_equal N_of_ascii) in H. rewrite !lower_code in H.
    destruct (is_upper_ascii_spec c) as [[Uc Bc]|[Uc Bc]];
      destruct (is_upper_ascii_spec d) as [[Ud Bd]|[Ud Bd]]; rewrite Uc, Ud in *.
    + assert (c = d) by (apply code_inj; lia). subst d.
      now rewrite Ascii.eqb_refl.
    + rewrite (proj2 (N.eqb_eq _ _)) by lia. simpl. now rewrite orb_true_r.
    + rewrite (proj2 (N.eqb_eq (N_of_ascii c) _)) by lia. simpl. now rewrite !orb_true_r.
    + apply code_inj in H. subst d. now rewrite Ascii.eqb_refl.
Qed.

Lemma same_ignoring_case_lower (s t : string) :
  same_ignoring_case s t = true <-> ascii_lower s = ascii_lower t.
Proof.
  revert t. induction s as [|c s IH]; intros [|d t]; simpl;
    try (split; [discriminate|discriminate]); [tauto|].
  rewrite andb_true_iff, same_letter_lower, IH. split.
  - intros [-> ->]. reflexivity.
  - intros H. inversion H. auto.
Qed.

Lemma ascii_lower_app (s t : string) :
  ascii_lower (String.append s t) = String.append (ascii_lower s) (ascii_lower t).
Proof.
  induction s as [|c s IH]; simpl; [reflexivity|now rewrite IH].
Qed.

Lemma ascii_lower_split (text a b : string) :
  ascii_lower text = String.append a b ->
  exists t1 t2, text = String.append t1 t2 /\ ascii_lower t1 = a /\ ascii_lower t2 = b.
Proof.
  revert text. induction a as [|c a IH]; intros text H.
  - exists EmptyString, text. auto.
  - destruct text as [|d text]; [discriminate|]. simpl in H. inversion H as [[Hc Hrest]].
    destruct (IH text Hrest) as (t1 & t2 & -> & H1 & H2).
    exists (String d t1), t2. simpl. now rewrite H1.
Qed.

(** On texts lower-cased letter by letter, the substring test of the page is
    containment up to letter case. *)
Lemma contains_ignoring_case (term text : string) :
  contains (ascii_lower term) (ascii_lower text) = true
  <-> occurs_ignoring_case term text.
Proof.
  rewrite contains_spec. unfold occurs_ignoring_case. split.
  - intros (pre' & post' & H).
    apply ascii_lower_split in H. destruct H as (pre & rest & -> & _ & H).
    apply ascii_lower_split in H. destruct H as (mid & post & -> & Hmid & _).
    exists pre, mid, post. split; [reflexivity|].
    now apply same_ignoring_case_lower.
  - intros (pre & mid & post & -> & H). apply same_ignoring_case_lower in H.
    exists (ascii_lower pre), (ascii_lower post).
    now rewrite !ascii_lower_app, H.
Qed.

Section GalleryFacts.

Variable lower : string -> string.

Lemma gallery_page_loop (search_term : string) (sort_by : sort_option) (db : DB) :
  gallery_page lower search_term sort_by db
  = gallery_loop lower search_term (get_artworks db).
Proof.
  unfold gallery_page. now destruct (get_artworks db).
Qed.

Lemma gallery_loop_empty_term (results : list gallery_row) :
  gallery_loop lower "" results = results.
Proof.
  induction results as [|r results IH]; simpl; [reflexivity|now rewrite IH].
Qed.

Lemma gallery_loop_in (term : string) (rows : list gallery_row) (r : gallery_row) :
  In r (gallery_loop lower term rows)
  <-> In r rows
      /\ (term = ""
          \/ contains (lower term) (lower (g_title r)) = true
          \/ contains (lower term) (lower (g_artist r)) = true).
Proof.
  induction rows as [|x rows IH]; simpl; [tauto|].
  destruct (String.eqb_spec term "") as [E|E]; simpl.
  - rewrite IH. tauto.
  - destruct (contains (lower term) (lower (g_title x))) eqn:Ct; simpl.
    + rewrite IH. split.
      * intros [<-|[H1 H2]]; [split; [now left|tauto]|tauto].
      * intros [[<-|H1] H2]; [now left|tauto].
    + destruct (contains (lower term) (lower (g_artist x))) eqn:Ca; simpl.
      * rewrite IH. split.
        -- intros [<-|[H1 H2]]; [split; [now left|tauto]|tauto].
        -- intros [[<-|H1] H2]; [now left|tauto].
      * rewrite IH. split.
        -- intros [H1 H2]. tauto.
        -- intros [[<-|H1] [H2|[H2|H2]]]; try tauto; congruence.
Qed.

(** C5 (as the code has it): the loop of the page renders exactly the rows,
    in their order, for which the lower-cased search term is a substring of the
    lower-cased title or of the lower-cased artist name; with the empty term it
    renders all rows.  For a term, titles and names in ASCII, a row is rendered
    exactly when its title or its artist's name contains the term as a
    case-insensitive substring. *)
Theorem gallery_loop_filters (results : list gallery_row) (term : string) :
  gallery_loop lower term results = filterBySearchTerm lower results term
  /\ (term = "" -> gallery_loop lower term results = results)
  /\ (term <> "" ->
      gallery_loop lower term results
      = filter (fun r => contains_ci lower term (g_title r)
                         || contains_ci lower term (g_artist r)) results)
  /\ (forall text,
        contains_ci lower term text = true
        <-> exists pre post,
            lower text = String.append pre (String.append (lower term) post))
  /\ ((forall s, is_ascii s = true -> lower s = ascii_lower s) ->
      is_ascii term = true ->
      forall r, is_ascii (g_title r) = true -> is_ascii (g_artist r) = true ->
                (In r (gallery_loop lower term results)
                 <-> In r results
                     /\ (term = "" \/ occurs_ignoring_case term (g_title r)
                         \/ occurs_ignoring_case term (g_artist r)))).
Proof.
  assert (Hne : term <> "" ->
                gallery_loop lower term results
                = filter (fun r => contains_ci lower term (g_title r)
                                   || contains_ci lower term (g_artist r)) results).
  { intros Hterm. apply String.eqb_neq in Hterm.
    induction results as [|r results IH]; simpl; [reflexivity|].
    rewrite Hterm. unfold contains_ci at 1 2. simpl.
    destruct (contains (lower term) (lower (g_title r))); simpl.
    - now rewrite IH.
    - destruct (contains (lower term) (lower (g_artist r))); simpl; now rewrite IH. }
  assert (He : term = "" -> gallery_loop lower term results = results).
  { intros ->. apply gallery_loop_empty_term. }
  split; [|split; [exact He|split; [exact Hne|split]]].
  - unfold filterBySearchTerm. destruct (String.eqb_spec term "") as [E|E].
    + now apply He.
    + now apply Hne.
  - intros text. apply contains_spec.
  - intros Hlower Hterm r Htitle Hartist.
    rewrite gallery_loop_in.
    rewrite (Hlower _ Hterm), (Hlower _ Htitle), (Hlower _ Hartist).
    now rewrite !contains_ignoring_case.
Qed.

(** C9: the rows rendered do not depend on the sort selector: under Newest
    and under Most Liked the page shows the same sequence, the rows of
    [get_artworks] that pass the search filter, in the order of the query. *)
Theorem gallery_ignores_sort_by (db : DB) (search_term : string) :
  gallery_page lower search_term Newest db
  = gallery_page lower search_term MostLiked db
  /\ forall sort_by,
       gallery_page lower search_term sort_by db
       = gallery_loop lower search_term (get_artworks db).
Proof.
  split.
  - now rewrite !gallery_page_loop.
  - intros sort_by. apply gallery_page_loop.
Qed.

End GalleryFacts.

(** C5 as stated fails outside ASCII: the title contains the term, letter for
    letter, and the row is skipped, because [str.lower] turns the last sigma of
    the title into a final sigma and the lone sigma of the term into a small
    sigma. *)
Lemma search_misses_final_sigma :
  let rows := [ mk_row 1 "ΟΔΟΣ" "iVBORw0KGgo=" 0 "2024-01-01T10:05:00" "asha" ] in
  contains "Σ" "ΟΔΟΣ" = true
  /\ py_lower "Σ" = "σ"
  /\ py_lower "ΟΔΟΣ" = "οδος"
  /\ gallery_loop py_lower "Σ" rows = [].
Proof.
  vm_compute. repeat split.
Qed.

(** With Most Liked selected the page still lists newest first. *)
Example most_liked_not_applied :
  let db := run_calls
              [ CallCreateUser "asha" "pass123" "2024-01-01T10:00:00";
                CallSaveArtwork 1 "Sunrise" "iVBORw0KGgo=" "2024-01-02T08:00:00";
                CallSaveArtwork 1 "Lotus" "iVBORw0KGgo=" "2024-01-03T08:00:00";
                CallLikeArtwork 1 ]
              empty_db in
  map (fun r => (g_title r, g_likes r)) (gallery_page ascii_lower "" MostLiked db)
  = [("Lotus", 0); ("Sunrise", 1)].
Proof. vm_compute. reflexivity. Qed.

(** ** Like counters under concurrent callers *)
















(** ** The order of TEXT values *)

Lemma ascii_compare_lt_trans (a b c : ascii) :
  Ascii.compare a b = Lt -> Ascii.compare b c = Lt -> Ascii.compare a c = Lt.
Proof.
  unfold Ascii.compare. rewrite !N.compare_lt_iff. apply N.lt_trans.
Qed.

Lemma string_compare_lt_trans (s1 s2 s3 : string) :
  String.compare s1 s2 = Lt -> String.compare s2 s3 = Lt -> String.compare s1 s3 = Lt.
Proof.
  revert s2 s3. induction s1 as [|a s1 IH]; intros [|b s2] [|c s3]; simpl;
    try discriminate; try reflexivity.
  destruct (Ascii.compare a b) eqn:Eab; try discriminate.
  - apply Ascii.compare_eq_iff in Eab. subst b.
    destruct (Ascii.compare a c); try discriminate; [apply IH|reflexivity].
  - intros _. destruct (Ascii.compare b c) eqn:Ebc; try discriminate.
    + apply Ascii.compare_eq_iff in Ebc. subst c. now rewrite Eab.
    + now rewrite (ascii_compare_lt_trans _ _ _ Eab Ebc).
Qed.

Lemma ltb_trans (s1 s2 s3 : string) :
  String.ltb s1 s2 = true -> String.ltb s2 s3 = true -> String.ltb s1 s3 = true.
Proof.
  unfold String.ltb. intros H12 H23.
  destruct (String.compare s1 s2) eqn:E12; try discriminate.
  destruct (String.compare s2 s3) eqn:E23; try discriminate.
  now rewrite (string_compare_lt_trans _ _ _ E12 E23).
Qed.

Lemma ltb_false_cases (s t : string) :
  String.ltb s t = false -> String.ltb t s = true \/ s = t.
Proof.
  unfold String.ltb. rewrite (String.compare_antisym t s).
  destruct (String.compare s t) eqn:E; simpl; try discriminate; intros _.
  - right. now apply String.compare_eq_iff.
  - now left.
Qed.

(** ** get_artworks: join and order *)

Lemma lt_sorted_all_above (x : Z) (ids : list Z) :
  StronglySorted Z.lt (x :: ids) -> forall y, In y ids -> x < y.
Proof.
  intros H y Hy. inversion H as [|? ? _ Hall]; subst.
  rewrite Forall_forall in Hall. now apply Hall.
Qed.

(** With distinct ids the lookup by primary key yields the row that [find]
    reaches, or nothing. *)
Lemma filter_by_id (us : list user_row) (x : Z) :
  StronglySorted Z.lt (map u_id us) ->
  filter (fun u => u_id u =? x) us
  = match find (fun u => u_id u =? x) us with
    | Some u => [u]
    | None => []
    end.
Proof.
  induction us as [|u us IH]; simpl; intros Hs; [reflexivity|].
  pose proof (lt_sorted_all_above _ _ Hs) as Habove.
  inversion Hs as [|? ? Hs' _]; subst.
  destruct (u_id u =? x) eqn:E.
  - f_equal. apply Z.eqb_eq in E.
    assert (Hnone : forall v, In v us -> (u_id v =? x) = false).
    { intros v Hv. apply Z.eqb_neq.
      specialize (Habove (u_id v) (in_map u_id _ _ Hv)). lia. }
    clear -Hnone. induction us as [|v us IH]; simpl; [reflexivity|].
    rewrite (Hnone v) by now left. apply IH. intros w Hw. apply Hnone. now right.
  - now apply IH.
Qed.

Lemma find_owner_exists (db : DB) (a : artwork_row) :
  (exists u, In u (users db) /\ u_id u = a_user_id a) ->
  exists u, owner_of db a = Some u.
Proof.
  intros [u [Hin Hid]]. unfold owner_of.
  destruct (find _ (users db)) as [v|] eqn:E; [now exists v|].
  exfalso. pose proof (find_none _ _ E u Hin) as H. simpl in H.
  apply Z.eqb_neq in H. contradiction.
Qed.

Lemma join_is_joined (db : DB) :
  wf_db db -> owners_exist db ->
  map Some (join_artworks_users db) = map (joined db) (artworks db).
Proof.
  intros [Hu _] Hown. unfold join_artworks_users, owners_exist in *.
  induction (artworks db) as [|a l IH]; simpl; [reflexivity|].
  rewrite (filter_by_id _ _ Hu).
  destruct (find_owner_exists db a (Hown a (or_introl eq_refl))) as [u Hu'].
  unfold joined. unfold owner_of in *. rewrite Hu'. simpl. f_equal.
  apply IH. intros b Hb. apply Hown. now right.
Qed.

Lemma join_ids (db : DB) :
  wf_db db -> owners_exist db ->
  map g_id (join_artworks_users db) = map a_id (artworks db).
Proof.
  intros Hwf Hown. pose proof (join_is_joined db Hwf Hown) as H.
  revert H. generalize (join_artworks_users db) as rows.
  induction (artworks db) as [|a l IH]; intros [|r rows]; simpl; try discriminate;
    [reflexivity|].
  intros H. inversion H as [[Hr Hrest]]. f_equal.
  - unfold joined in Hr. destruct (owner_of db a); simpl in Hr; [|discriminate].
    inversion Hr. reflexivity.
  - now apply IH.
Qed.

Lemma insert_desc_perm (r : gallery_row) (l : list gallery_row) :
  Permutation (insert_desc r l) (r :: l).
Proof.
  induction l as [|x l IH]; simpl; [reflexivity|].
  destruct (String.ltb _ _); [|reflexivity].
  rewrite IH. apply perm_swap.
Qed.

Lemma order_by_perm (l : list gallery_row) :
  Permutation (order_by_created_at_desc l) l.
Proof.
  induction l as [|r l IH]; simpl; [reflexivity|].
  rewrite insert_desc_perm. now constructor.
Qed.

(** Inserting a row whose rowid is below all rowids of a sorted list keeps the
    list sorted: the row settles before the rows of its own creation time. *)
Lemma insert_desc_sorted (r : gallery_row) (l : list gallery_row) :
  StronglySorted gallery_before l ->
  (forall x, In x l -> g_id r < g_id x) ->
  StronglySorted gallery_before (insert_desc r l).
Proof.
  induction l as [|x l IH]; simpl; intros Hs Hid.
  - repeat constructor.
  - inversion Hs as [|? ? Hs' Hall]; subst. rewrite Forall_forall in Hall.
    destruct (String.ltb (g_created_at r) (g_created_at x)) eqn:E.
    + constructor.
      * apply IH; [exact Hs'|]. intros y Hy. apply Hid. now right.
      * apply Forall_forall. intros y Hy.
        apply (Permutation_in _ (insert_desc_perm r l)) in Hy.
        destruct Hy as [<-|Hy]; [now left|now apply Hall].
    + constructor; [exact Hs|].
      assert (Hrx : gallery_before r x).
      { destruct (ltb_false_cases _ _ E) as [H|H]; [now left|].
        right. split; [exact H|]. apply Hid. now left. }
      apply Forall_forall. intros y [<-|Hy]; [exact Hrx|].
      destruct Hrx as [Hrx|[Heq _]], (Hall y Hy) as [Hxy|[Heq' _]].
      * left. now apply (ltb_trans _ _ _ Hxy Hrx).
      * left. now rewrite <- Heq'.
      * left. now rewrite Heq.
      * right. split; [congruence|]. apply Hid. now right.
Qed.

Lemma order_by_sorted (l : list gallery_row) :
  StronglySorted Z.lt (map g_id l) ->
  StronglySorted gallery_before (order_by_created_at_desc l).
Proof.
  induction l as [|r l IH]; simpl; intros Hs; [constructor|].
  pose proof (lt_sorted_all_above _ _ Hs) as Habove.
  inversion Hs as [|? ? Hs' _]; subst.
  apply insert_desc_sorted; [now apply IH|].
  intros x Hx. apply Habove. apply in_map.
  now apply (Permutation_in _ (order_by_perm l)).
Qed.

Lemma join_is_listed (db : DB) :
  wf_db db -> owners_exist db ->
  join_artworks_users db = map (listed_row db) (artworks db).
Proof.
  intros [Hu _] Hown. unfold join_artworks_users, owners_exist, listed_row in *.
  induction (artworks db) as [|a l IH]; simpl; [reflexivity|].
  rewrite (filter_by_id _ _ Hu).
  destruct (find_owner_exists db a (Hown a (or_introl eq_refl))) as [u Hu'].
  unfold owner_of in *. rewrite Hu'. simpl. f_equal.
  apply IH. intros b Hb. apply Hown. now right.
Qed.

(** C4: in a store whose artworks all have their owner, [get_artworks] returns
    one row per artwork: the columns of the artwork with the username of the
    user whose id is the artwork's user_id; the rows come newest creation time
    first, and rows of equal creation time in insertion order (ascending
    rowid). *)
Theorem get_artworks_newest_first (db : DB) :
  wf_db db -> owners_exist db ->
  Permutation (get_artworks db) (map (listed_row db) (artworks db))
  /\ (forall a, In a (artworks db) ->
       exists u, In u (users db) /\ u_id u = a_user_id a
                 /\ listed_row db a
                    = mk_row (a_id a) (a_title a) (a_image_data a) (a_likes a)
                             (a_created_at a) (u_username u))
  /\ StronglySorted gallery_before (get_artworks db).
Proof.
  intros Hwf Hown. unfold get_artworks, select_gallery. split; [|split].
  - rewrite <- (join_is_listed db Hwf Hown). apply order_by_perm.
  - intros a Ha. destruct (find_owner_exists db a (Hown a Ha)) as [u Hu].
    exists u. unfold listed_row. rewrite Hu.
    unfold owner_of in Hu. apply find_some in Hu. destruct Hu as [Hin Hid].
    apply Z.eqb_eq in Hid. auto.
  - apply order_by_sorted. rewrite (join_ids db Hwf Hown). apply Hwf.
Qed.

Lemma get_artworks_newest_first_witness :
  let db := run_calls
              [ CallCreateUser "asha" "pass123" "2024-01-01T10:00:00";
                CallCreateUser "ravi" "secret" "2024-01-01T10:01:00";
                CallSaveArtwork 1 "Sunrise" "iVBORw0KGgo=" "2024-01-02T08:00:00";
                CallSaveArtwork 2 "Lotus" "iVBORw0KGgo=" "2024-01-03T08:00:00";
                CallSaveArtwork 1 "Peacock" "iVBORw0KGgo=" "2024-01-02T08:00:00" ]
              empty_db in
  map (fun r => (g_title r, g_artist r)) (get_artworks db)
  = [("Lotus", "ravi"); ("Sunrise", "asha"); ("Peacock", "asha")]
  /\ Permutation (get_artworks db) (map (listed_row db) (artworks db)).
Proof.
  intros db. split; [reflexivity|].
  refine (proj1 (get_artworks_newest_first db _ _)).
  - repeat split; simpl.
    + repeat constructor.
    + repeat constructor.
    + repeat constructor; simpl; intuition discriminate.
    + repeat constructor.
  - intros a [<-|[<-|[<-|[]]]]; simpl;
      first [ solve [eexists; split; [left; reflexivity|reflexivity]]
            | solve [eexists; split; [right; left; reflexivity|reflexivity]] ].
Defined.

(** ** Invariants of the application *)

Lemma sorted_snoc (l : list Z) (x : Z) :
  StronglySorted Z.lt l -> (forall y, In y l -> y < x) ->
  StronglySorted Z.lt (l ++ [x]).
Proof.
  induction l as [|y l IH]; simpl; intros Hs Hx.
  - repeat constructor.
  - inversion Hs as [|? ? Hs' Hall]; subst. constructor.
    + apply IH; [exact Hs'|]. intros z Hz. apply Hx. now right.
    + apply Forall_app. split; [exact Hall|]. constructor; [|constructor].
      apply Hx. now left.
Qed.

Lemma nodup_snoc {A : Type} (l : list A) (x : A) :
  NoDup l -> ~ In x l -> NoDup (l ++ [x]).
Proof.
  intros Hl Hx. apply NoDup_app; [exact Hl|repeat constructor; intros []|].
  intros y Hy [<-|[]]. contradiction.
Qed.

Lemma insert_user_wf (db db' : DB) (username password now : string) :
  wf_db db -> insert_user username password now db = Done db' -> wf_db db'.
Proof.
  intros (Hu & Ha & Hn & Hp). unfold insert_user.
  destruct (existsb _ (users db)) eqn:E; [discriminate|].
  intros H. inversion H; subst db'; clear H.
  repeat split; simpl; rewrite ?map_app; simpl.
  - apply sorted_snoc; [exact Hu|apply next_rowid_above].
  - exact Ha.
  - apply nodup_snoc; [exact Hn|].
    intros Hin. apply in_map_iff in Hin. destruct Hin as [u [Hname Hin]].
    assert (existsb (fun u => (u_username u =? username)%string) (users db) = true);
      [|congruence].
    apply existsb_exists. exists u. split; [exact Hin|now apply String.eqb_eq].
  - apply Forall_app. split; [exact Hp|]. constructor; [|constructor].
    now apply next_rowid_positive.
Qed.

Lemma create_user_wf (db : DB) (username password now : string) :
  wf_db db -> wf_db (fst (create_user username password now db)).
Proof.
  intros Hwf. unfold create_user.
  destruct (insert_user _ _ _ db) as [db'|[]] eqn:E; simpl; [|exact Hwf].
  exact (insert_user_wf _ _ _ _ _ Hwf E).
Qed.

Lemma create_user_keeps_users (db : DB) (username password now : string) :
  forall u, In u (users db) -> In u (users (fst (create_user username password now db))).
Proof.
  intros u Hu. unfold create_user, insert_user.
  destruct (existsb _ (users db)); simpl; [exact Hu|].
  apply in_or_app. now left.
Qed.

Lemma create_user_keeps_artworks (db : DB) (username password now : string) :
  artworks (fst (create_user username password now db)) = artworks db.
Proof.
  unfold create_user, insert_user. now destruct (existsb _ (users db)).
Qed.

Lemma insert_artwork_wf (db : DB) (user_id : Z) (title image_data now : string) :
  wf_db db -> wf_db (insert_artwork user_id title image_data now db).
Proof.
  intros (Hu & Ha & Hn & Hp). repeat split; simpl; try assumption.
  rewrite map_app. simpl. apply sorted_snoc; [exact Ha|apply next_rowid_above].
Qed.

Lemma update_likes_ids (artwork_id : Z) (db : DB) :
  map a_id (artworks (update_likes artwork_id db)) = map a_id (artworks db)
  /\ map a_user_id (artworks (update_likes artwork_id db)) = map a_user_id (artworks db).
Proof.
  unfold update_likes. simpl. rewrite !map_map.
  split; apply map_ext; intros a; now destruct (a_id a =? artwork_id).
Qed.

Lemma update_likes_wf (artwork_id : Z) (db : DB) :
  wf_db db -> wf_db (update_likes artwork_id db).
Proof.
  intros (Hu & Ha & Hn & Hp). repeat split; try assumption.
  now rewrite (proj1 (update_likes_ids artwork_id db)).
Qed.

Lemma owners_exist_by_ids (db db' : DB) :
  (forall u, In u (users db) -> In u (users db')) ->
  (forall i, In i (map a_user_id (artworks db')) -> In i (map a_user_id (artworks db))) ->
  owners_exist db -> owners_exist db'.
Proof.
  intros Hus Has Hown a Ha.
  specialize (Has _ (in_map a_user_id _ _ Ha)).
  apply in_map_iff in Has. destruct Has as [b [Hb Hin]].
  destruct (Hown b Hin) as [u [Hu Hid]].
  exists u. split; [now apply Hus|congruence].
Qed.

Lemma authenticate_user_known (db : DB) (username password : string) (z : Z) :
  authenticate_user username password db = PyInt z ->
  exists u, In u (users db) /\ u_id u = z.
Proof.
  unfold authenticate_user, select_user_id.
  destruct (filter _ (users db)) as [|u l] eqn:E; [discriminate|].
  intros H. inversion H; subst. exists u. split; [|reflexivity].
  assert (Hin : In u (u :: l)) by now left.
  rewrite <- E in Hin. now apply filter_In in Hin.
Qed.

Section ApplicationInvariant.

Variable lower : string -> string.

Lemma initial_app_invariant : app_invariant initial_app.
Proof.
  split; [|split]; simpl.
  - repeat split; constructor.
  - intros a [].
  - discriminate.
Qed.

Lemma app_step_invariant (st : app_state) (sid : nat) (ev : event) :
  app_invariant st -> app_invariant (app_step lower st sid ev).
Proof.
  intros Hinv. pose proof Hinv as (Hwf & Hown & Hses).
  destruct ev as [u p t|u p| |title img t|term sort_by i]; simpl.
  - destruct (ss_user_id (sessions st sid)); try exact Hinv.
    split; [|split]; simpl.
    + now apply create_user_wf.
    + apply (owners_exist_by_ids (store st)); [apply create_user_keeps_users| |exact Hown].
      now rewrite create_user_keeps_artworks.
    + intros s z Hz. destruct (Hses s z Hz) as [v [Hv Hid]].
      exists v. split; [now apply create_user_keeps_users|exact Hid].
  - destruct (ss_user_id (sessions st sid)); try exact Hinv.
    destruct (truthy (authenticate_user u p (store st))) eqn:Et; [|exact Hinv].
    split; [|split]; simpl; try assumption.
    intros s k. unfold set_session. destruct (Nat.eqb s sid); simpl.
    + apply authenticate_user_known.
    + apply Hses.
  - destruct (ss_user_id (sessions st sid)); try exact Hinv;
      (split; [|split]; simpl; try assumption;
       intros s k; unfold set_session; destruct (Nat.eqb s sid); simpl;
       [discriminate|apply Hses]).
  - destruct (ss_user_id (sessions st sid)) as [| |z] eqn:Ez; try exact Hinv.
    destruct (negb (z =? 0)); [|exact Hinv].
    cbn [store sessions]. rewrite save_artwork_store.
    destruct (int64 z); [|now split; [|split]].
    split; [|split]; simpl.
    + now apply insert_artwork_wf.
    + intros a Ha. apply in_app_or in Ha. destruct Ha as [Ha|[<-|[]]].
      * now apply Hown.
      * simpl. now apply (Hses sid).
    + exact Hses.
  - destruct (existsb _ _); [|exact Hinv].
    cbn [store sessions]. rewrite like_artwork_store.
    destruct (int64 i); [|now split; [|split]].
    split; [|split]; simpl.
    + now apply update_likes_wf.
    + apply (owners_exist_by_ids (store st)); [trivial| |exact Hown].
      now rewrite (proj2 (update_likes_ids i (store st))).
    + exact Hses.
Qed.

Lemma run_from_invariant (evs : list (nat * event)) (st : app_state) :
  app_invariant st ->
  app_invariant (fold_left (fun st e => app_step lower st (fst e) (snd e)) evs st).
Proof.
  revert st. induction evs as [|e evs IH]; intros st Hst; simpl; [exact Hst|].
  apply IH. now apply app_step_invariant.
Qed.

Lemma run_app_invariant (evs : list (nat * event)) :
  app_invariant (run_app lower evs).
Proof.
  apply run_from_invariant, initial_app_invariant.
Qed.

(** C7 (as the code has it): in every store the application reaches, each
    artwork's user_id is the id of a row of the users table; the row that a
    Save Artwork click adds has the id of a user for its user_id; and
    [save_artwork] called with the id of a user keeps every artwork with its
    owner. *)
Theorem artworks_have_owners (evs : list (nat * event)) :
  owners_exist (store (run_app lower evs))
  /\ (forall sid title image_data now a,
       let st := run_app lower evs in
       let st' := app_step lower st sid (SaveArtwork title image_data now) in
       In a (artworks (store st')) ->
       exists u, In u (users (store st')) /\ u_id u = a_user_id a)
  /\ (forall db user_id title image_data now,
       owners_exist db ->
       (exists u, In u (users db) /\ u_id u = user_id) ->
       owners_exist (fst (save_artwork user_id title image_data now db))).
Proof.
  split; [|split].
  - apply run_app_invariant.
  - intros sid title image_data now a st st'.
    apply (app_step_invariant st sid (SaveArtwork title image_data now)).
    apply run_app_invariant.
  - intros db user_id title image_data now Hown Hu.
    rewrite save_artwork_store. destruct (int64 user_id); [|exact Hown].
    intros a Ha. simpl in Ha. apply in_app_or in Ha. destruct Ha as [Ha|[<-|[]]].
    + now apply Hown.
    + exact Hu.
Qed.

End ApplicationInvariant.

Lemma artworks_have_owners_witness :
  owners_exist
    (store (run_app ascii_lower
              [ (0%nat, SignUp "asha" "pass123" "2024-01-01T10:00:00");
                (0%nat, Login "asha" "pass123");
                (0%nat, SaveArtwork "Sunrise" "iVBORw0KGgo=" "2024-01-01T10:05:00");
                (1%nat, Like "sun" MostLiked 1) ])).
Proof.
  exact (proj1 (artworks_have_owners ascii_lower
                  [ (0%nat, SignUp "asha" "pass123" "2024-01-01T10:00:00");
                    (0%nat, Login "asha" "pass123");
                    (0%nat, SaveArtwork "Sunrise" "iVBORw0KGgo=" "2024-01-01T10:05:00");
                    (1%nat, Like "sun" MostLiked 1) ])).
Defined.

(** C7 as stated fails: [save_artwork] with the user_id 7 on a store without
    users stores an artwork whose user_id is the id of no user. *)
Lemma save_artwork_creates_orphan :
  let db' := fst (save_artwork 7 "Sunrise" "iVBORw0KGgo=" "2024-01-01T10:05:00" empty_db) in
  artworks db' = [mk_artwork 1 7 "Sunrise" "iVBORw0KGgo=" 0 "2024-01-01T10:05:00"]
  /\ users db' = []
  /\ ~ owners_exist db'.
Proof.
  split; [reflexivity|split; [reflexivity|]].
  intros H. destruct (H _ (or_introl eq_refl)) as [u [[] _]].
Qed.

Example example_scenario :
  let st := run_app ascii_lower
              [ (0%nat, SignUp "asha" "pass123" "2024-01-01T10:00:00");
                (0%nat, Login "asha" "pass123");
                (0%nat, SaveArtwork "Sunrise" "iVBORw0KGgo=" "2024-01-01T10:05:00");
                (1%nat, Like "" Newest 1);
                (1%nat, Like "sun" MostLiked 1);
                (0%nat, Like "ASHA" Newest 1) ] in
  map (fun r => (g_title r, g_artist r, g_likes r)) (get_artworks (store st))
  = [("Sunrise", "asha", 3)].
Proof. vm_compute. reflexivity. Qed.

(** [save_artwork] itself takes any user_id: the REFERENCES clause is not
    enforced, the application only ever passes the id of the session. *)
Example save_artwork_unchecked :
  let db := fst (save_artwork 7 "Sunrise" "iVBORw0KGgo=" "2024-01-01T10:05:00" empty_db) in
  map a_user_id (artworks db) = [7] /\ users db = [].
Proof. split; reflexivity. Qed.

(** ** Wrong passwords *)

Lemma nodup_map_inj {A B : Type} (f : A -> B) (l : list A) (x y : A) :
  NoDup (map f l) -> In x l -> In y l -> f x = f y -> x = y.
Proof.
  induction l as [|a l IH]; simpl; intros Hnd Hx Hy Hxy; [contradiction|].
  inversion Hnd as [|? ? Hnotin Hnd']; subst.
  destruct Hx as [->|Hx], Hy as [->|Hy].
  - reflexivity.
  - exfalso. apply Hnotin. rewrite Hxy. now apply in_map.
  - exfalso. apply Hnotin. rewrite <- Hxy. now apply in_map.
  - now apply IH.
Qed.

(** C8 (as the code has it): the users table keeps the digest of the password;
    for the username of a stored account, a password whose digest differs from
    the stored one gets [None]. *)
Theorem authenticate_wrong_password (db : DB) (row : user_row) (password attempt : string) :
  wf_db db ->
  In row (users db) ->
  u_password row = hash_password password ->
  hash_password attempt <> hash_password password ->
  authenticate_user (u_username row) attempt db = PyNone.
Proof.
  intros (_ & _ & Hnd & _) Hin Hpw Hdiff.
  unfold authenticate_user, select_user_id.
  destruct (filter _ (users db)) as [|u l] eqn:E; [reflexivity|].
  exfalso.
  assert (Hu : In u (u :: l)) by now left.
  rewrite <- E in Hu. apply filter_In in Hu. destruct Hu as [Hu Hmatch].
  apply andb_prop in Hmatch. destruct Hmatch as [Hname Hpass].
  apply String.eqb_eq in Hname. apply String.eqb_eq in Hpass.
  assert (u = row) by (apply (nodup_map_inj u_username (users db)); assumption).
  subst u. congruence.
Qed.

Lemma authenticate_wrong_password_witness :
  authenticate_user "asha" "pass124"
    (fst (create_user "asha" "pass123" "2024-01-01T10:00:00" empty_db))
  = PyNone.
Proof.
  apply (authenticate_wrong_password
           (fst (create_user "asha" "pass123" "2024-01-01T10:00:00" empty_db))
           (mk_user 1 "asha" (hash_password "pass123") "2024-01-01T10:00:00")
           "pass123" "pass124").
  - repeat split; simpl.
    + repeat constructor.
    + constructor.
    + repeat constructor. intros [].
    + repeat constructor.
  - left. reflexivity.
  - reflexivity.
  - vm_compute. discriminate.
Defined.

(** ** Two passwords with one digest *)

(** A bounded search: a value is taken somewhere on [0..M] or nowhere there. *)
Lemma bounded_search (f : Z -> Z) (v M : Z) :
  0 <= M ->
  (exists i, 0 <= i <= M /\ f i = v) \/ (forall i, 0 <= i <= M -> f i <> v).
Proof.
  intros HM. pattern M. apply natlike_ind; [| |exact HM].
  - destruct (Z.eq_dec (f 0) v) as [E|E].
    + left. exists 0. split; [lia|exact E].
    + right. intros i Hi. assert (i = 0) by lia. now subst i.
  - intros m Hm [[i [Hi E]]|Hnone].
    + left. exists i. split; [lia|exact E].
    + destruct (Z.eq_dec (f (Z.succ m)) v) as [E|E].
      * left. exists (Z.succ m). split; [lia|exact E].
      * right. intros i Hi. destruct (Z.eq_dec i (Z.succ m)) as [->|Hne]; [exact E|].
        apply Hnone. lia.
Qed.

(** The pigeonhole principle on intervals of [Z]: [M + 1] arguments with
    values among [M] numbers, so two arguments share a value. *)
Lemma pigeonhole_interval (M : Z) :
  0 <= M ->
  forall f : Z -> Z,
    (forall i, 0 <= i <= M -> 0 <= f i < M) ->
    exists i j, 0 <= i < j /\ j <= M /\ f i = f j.
Proof.
  intros HM. pattern M. apply natlike_ind; [| |exact HM].
  - intros f Hf. specialize (Hf 0). lia.
  - intros m Hm IH f Hf.
    destruct (bounded_search f (f (Z.succ m)) m Hm) as [[i [Hi E]]|Hnone].
    + exists i, (Z.succ m). repeat split; try lia; exact E.
    + set (v := f (Z.succ m)) in *.
      assert (Hv : 0 <= v < Z.succ m) by (apply Hf; lia).
      destruct (IH (fun i => if f i <? v then f i else f i - 1)) as [i [j [Hij [Hj E]]]].
      * intros i Hi. specialize (Hnone i Hi).
        assert (0 <= f i < Z.succ m) by (apply Hf; lia).
        destruct (f i <? v) eqn:C; [apply Z.ltb_lt in C|apply Z.ltb_ge in C]; lia.
      * exists i, j. repeat split; try lia.
        pose proof (Hnone i ltac:(lia)). pose proof (Hnone j ltac:(lia)).
        destruct (f i <? v) eqn:Ci; destruct (f j <? v) eqn:Cj;
          try apply Z.ltb_lt in Ci; try apply Z.ltb_ge in Ci;
          try apply Z.ltb_lt in Cj; try apply Z.ltb_ge in Cj; lia.
Qed.

Lemma bits_password_inj (n : nat) (x y : Z) :
  0 <= x < 2 ^ Z.of_nat n -> 0 <= y < 2 ^ Z.of_nat n ->
  bits_password n x = bits_password n y -> x = y.
Proof.
  revert x y. induction n as [|n IH]; intros x y Hx Hy.
  - intros _. change (2 ^ Z.of_nat 0) with 1 in *. lia.
  - rewrite Nat2Z.inj_succ, Z.pow_succ_r in Hx, Hy by lia.
    cbn [bits_password]. intros H. inversion H as [[Hodd Htail]].
    apply IH in Htail;
      [|split; [apply Z.div_pos; lia|apply Z.div_lt_upper_bound; lia]
       |split; [apply Z.div_pos; lia|apply Z.div_lt_upper_bound; lia]].
    rewrite (Z.div_mod x 2), (Z.div_mod y 2) by lia.
    rewrite Htail, !Zmod_odd.
    destruct (Z.odd x), (Z.odd y); try reflexivity; discriminate.
Qed.

Lemma add32_range (x y : Z) : 0 <= SHA256.add32 x y < SHA256.w32.
Proof.
  unfold SHA256.add32. apply Z.mod_pos_bound. reflexivity.
Qed.

Lemma compress_ok (h : SHA256.state) (block : list Z) :
  state_ok (SHA256.compress h block).
Proof.
  unfold state_ok, SHA256.compress, SHA256.state_words.
  cbn [SHA256.ha SHA256.hb SHA256.hc SHA256.hd SHA256.he SHA256.hf SHA256.hg SHA256.hh].
  repeat (constructor; [apply add32_range|]). constructor.
Qed.

Lemma fold_compress_ok (bl : list (list Z)) (h : SHA256.state) :
  state_ok h -> state_ok (fold_left SHA256.compress bl h).
Proof.
  revert h. induction bl as [|b bl IH]; intros h Hh; simpl; [exact Hh|].
  apply IH, compress_ok.
Qed.

Lemma H0_ok : state_ok SHA256.H0.
Proof.
  cbv [state_ok SHA256.state_words SHA256.H0 SHA256.w32 SHA256.ha SHA256.hb SHA256.hc
       SHA256.hd SHA256.he SHA256.hf SHA256.hg SHA256.hh].
  repeat (constructor; [lia|]). constructor.
Qed.

Lemma digest_ok (msg : list Z) : state_ok (SHA256.digest msg).
Proof.
  unfold SHA256.digest. apply fold_compress_ok, H0_ok.
Qed.

Lemma fold_number_inj (l1 l2 : list Z) (a1 a2 : Z) :
  List.length l1 = List.length l2 ->
  Forall (fun w => 0 <= w < SHA256.w32) l1 ->
  Forall (fun w => 0 <= w < SHA256.w32) l2 ->
  fold_left (fun acc w => acc * SHA256.w32 + w) l1 a1
  = fold_left (fun acc w => acc * SHA256.w32 + w) l2 a2 ->
  a1 = a2 /\ l1 = l2.
Proof.
  revert l2 a1 a2. induction l1 as [|w1 l1 IH]; intros [|w2 l2] a1 a2 Hlen H1 H2;
    simpl in *; try discriminate.
  - intros E. now split.
  - intros E. inversion H1; inversion H2; subst.
    destruct (IH l2 _ _ ltac:(lia) ltac:(assumption) ltac:(assumption) E) as [Ea El].
    unfold SHA256.w32 in *. split; [lia|]. f_equal; [lia|exact El].
Qed.

Lemma state_number_inj (s1 s2 : SHA256.state) :
  state_ok s1 -> state_ok s2 -> state_number s1 = state_number s2 -> s1 = s2.
Proof.
  intros H1 H2 E.
  destruct (fold_number_inj (SHA256.state_words s1) (SHA256.state_words s2) 0 0
              eq_refl H1 H2 E) as [_ Hw].
  destruct s1, s2. unfold SHA256.state_words in Hw. simpl in Hw.
  now inversion Hw.
Qed.

Lemma state_number_range (s : SHA256.state) :
  state_ok s -> 0 <= state_number s < 2 ^ 256.
Proof.
  unfold state_ok, state_number, SHA256.state_words. destruct s as [a b c d e f g h].
  cbn [fold_left SHA256.ha SHA256.hb SHA256.hc SHA256.hd SHA256.he SHA256.hf SHA256.hg
       SHA256.hh].
  intros H. repeat match goal with
                   | H : Forall _ (_ :: _) |- _ => inversion H; clear H; subst
                   end.
  assert (E32 : SHA256.w32 = 4294967296) by reflexivity.
  assert (E256 : 2 ^ 256 = 4294967296 * 4294967296 * 4294967296 * 4294967296
                           * 4294967296 * 4294967296 * 4294967296 * 4294967296)
    by reflexivity.
  rewrite E32 in *. rewrite E256. lia.
Qed.

(** Among the passwords of 257 binary digits two have the same digest. *)
Lemma hash_password_collision :
  exists p q : string, p <> q /\ hash_password p = hash_password q.
Proof.
  destruct (pigeonhole_interval (2 ^ 256) ltac:(lia)
              (fun i => state_number
                          (SHA256.digest (SHA256.bytes_of_string (bits_password 257 i)))))
    as [i [j [Hij [Hj E]]]].
  - intros i _. apply state_number_range, digest_ok.
  - exists (bits_password 257 i), (bits_password 257 j). split.
    + intros Heq. apply bits_password_inj in Heq; [lia| |].
      * change (Z.of_nat 257) with 257. 
        assert (2 ^ 257 = 2 * 2 ^ 256) by reflexivity. lia.
      * change (Z.of_nat 257) with 257. 
        assert (2 ^ 257 = 2 * 2 ^ 256) by reflexivity. lia.
    + apply state_number_inj in E; [|apply digest_ok|apply digest_ok].
      unfold hash_password, SHA256.hexdigest. now rewrite E.
Qed.

(** C8 as stated fails: an account can be opened with a password [p] such
    that another password [q] logs in to it. *)
Lemma wrong_password_accepted :
  exists p q : string,
    q <> p
    /\ authenticate_user "asha" q
         (fst (create_user "asha" p "2024-01-01T10:00:00" empty_db))
       = PyInt 1.
Proof.
  destruct hash_password_collision as [p [q [Hne Hh]]].
  exists p, q. split; [congruence|].
  unfold authenticate_user, create_user, insert_user, select_user_id.
  rewrite <- Hh. generalize (hash_password p); intros h.
  cbn [existsb users empty_db fst app map next_rowid filter u_username u_password u_id].
  rewrite !String.eqb_refl. reflexivity.
Qed.

Example isoformat_examples :
  isoformat (mk_datetime 2024 1 5 9 3 7 0) = "2024-01-05T09:03:07"
  /\ isoformat (mk_datetime 2024 12 31 23 59 59 1500) = "2024-12-31T23:59:59.001500"
  /\ isoformat (mk_datetime 987 2 3 0 0 0 999999) = "0987-02-03T00:00:00.999999".
Proof. repeat split. Qed.

(** ** Timestamps: the order of the text is the order of time *)

Lemma digit_char_compare (x y : Z) :
  0 <= x < 10 -> 0 <= y < 10 ->
  Ascii.compare (digit_char x) (digit_char y) = (x ?= y).
Proof.
  intros Hx Hy. unfold Ascii.compare, digit_char.
  rewrite !N_ascii_embedding by lia.
  rewrite Z2N.inj_compare by lia. apply Z.add_compare_mono_l.
Qed.

Lemma compare_by_last_digit (a b : Z) :
  0 <= a -> 0 <= b ->
  (a ?= b) = match a / 10 ?= b / 10 with
             | Eq => a mod 10 ?= b mod 10
             | c => c
             end.
Proof.
  intros Ha Hb.
  pose proof (Z.div_mod a 10 ltac:(lia)). pose proof (Z.div_mod b 10 ltac:(lia)).
  pose proof (Z.mod_pos_bound a 10 ltac:(lia)). pose proof (Z.mod_pos_bound b 10 ltac:(lia)).
  destruct (Z.compare_spec (a / 10) (b / 10)) as [E|E|E].
  - destruct (Z.compare_spec (a mod 10) (b mod 10)) as [F|F|F].
    + apply Z.compare_eq_iff. lia.
    + apply Z.compare_lt_iff. lia.
    + apply Z.compare_gt_iff. lia.
  - apply Z.compare_lt_iff. lia.
  - apply Z.compare_gt_iff. lia.
Qed.

(** Two numbers printed in the same width compare as texts the way they
    compare as numbers; equal numbers leave the comparison to what follows. *)
Lemma zero_padded_compare (w : nat) (a b : Z) (s t : string) :
  0 <= a < 10 ^ Z.of_nat w -> 0 <= b < 10 ^ Z.of_nat w ->
  String.compare (zero_padded w a s) (zero_padded w b t)
  = match a ?= b with
    | Eq => String.compare s t
    | c => c
    end.
Proof.
  revert a b s t. induction w as [|w IH]; intros a b s t Ha Hb.
  - change (10 ^ Z.of_nat 0) with 1 in *.
    assert (a = 0) by lia. assert (b = 0) by lia. subst. reflexivity.
  - rewrite Nat2Z.inj_succ, Z.pow_succ_r in Ha, Hb by lia.
    cbn [zero_padded].
    rewrite IH by (split; [apply Z.div_pos; lia|apply Z.div_lt_upper_bound; lia]).
    rewrite (compare_by_last_digit a b) by lia.
    destruct (a / 10 ?= b / 10); try reflexivity.
    cbn [String.compare].
    rewrite digit_char_compare by (apply Z.mod_pos_bound; lia).
    now destruct (a mod 10 ?= b mod 10).
Qed.

Lemma days_in_month_bound (y m : Z) : 28 <= days_in_month y m <= 31.
Proof.
  unfold days_in_month.
  destruct (m =? 2); [destruct (is_leap y); lia|].
  destruct ((m =? 4) || (m =? 6) || (m =? 9) || (m =? 11)); lia.
Qed.

Lemma fraction_compare (u1 u2 : Z) :
  0 <= u1 <= 999999 -> 0 <= u2 <= 999999 ->
  String.compare
    (if u1 =? 0 then EmptyString else String "." (zero_padded 6 u1 EmptyString))
    (if u2 =? 0 then EmptyString else String "." (zero_padded 6 u2 EmptyString))
  = (u1 ?= u2).
Proof.
  intros H1 H2.
  destruct (Z.eqb_spec u1 0) as [->|N1], (Z.eqb_spec u2 0) as [->|N2].
  - reflexivity.
  - cbn [String.compare]. symmetry. apply Z.compare_lt_iff. lia.
  - cbn [String.compare]. symmetry. apply Z.compare_gt_iff. lia.
  - cbn [String.compare]. change (Ascii.compare "." ".") with Eq. cbv iota.
    rewrite zero_padded_compare by (change (10 ^ Z.of_nat 6) with 1000000; lia).
    destruct (u1 ?= u2) eqn:E; try reflexivity.
Qed.

Lemma isoformat_text_order (d1 d2 : datetime) :
  valid_datetime d1 -> valid_datetime d2 ->
  String.compare (isoformat d1) (isoformat d2) = datetime_compare d1 d2.
Proof.
  intros (Hy1 & Hm1 & Hd1 & Hh1 & Hmi1 & Hs1 & Hu1) (Hy2 & Hm2 & Hd2 & Hh2 & Hmi2 & Hs2 & Hu2).
  pose proof (days_in_month_bound (year d1) (month d1)).
  pose proof (days_in_month_bound (year d2) (month d2)).
  unfold isoformat, datetime_compare.
  rewrite zero_padded_compare by (change (10 ^ Z.of_nat 4) with 10000; lia).
  destruct (year d1 ?= year d2); try reflexivity.
  cbn [String.compare]. change (Ascii.compare "-" "-") with Eq. cbv iota.
  rewrite zero_padded_compare by (change (10 ^ Z.of_nat 2) with 100; lia).
  destruct (month d1 ?= month d2); try reflexivity.
  cbn [String.compare]. change (Ascii.compare "-" "-") with Eq. cbv iota.
  rewrite zero_padded_compare by (change (10 ^ Z.of_nat 2) with 100; lia).
  destruct (day d1 ?= day d2); try reflexivity.
  cbn [String.compare]. change (Ascii.compare "T" "T") with Eq. cbv iota.
  rewrite zero_padded_compare by (change (10 ^ Z.of_nat 2) with 100; lia).
  destruct (hour d1 ?= hour d2); try reflexivity.
  cbn [String.compare]. change (Ascii.compare ":" ":") with Eq. cbv iota.
  rewrite zero_padded_compare by (change (10 ^ Z.of_nat 2) with 100; lia).
  destruct (minute d1 ?= minute d2); try reflexivity.
  cbn [String.compare]. change (Ascii.compare ":" ":") with Eq. cbv iota.
  rewrite zero_padded_compare by (change (10 ^ Z.of_nat 2) with 100; lia).
  destruct (second d1 ?= second d2); try reflexivity.
  now apply fraction_compare.
Qed.

(** X1: for two valid datetimes the bytewise comparison of their isoformat()
    texts is their chronological comparison, so ORDER BY created_at orders
    rows by the time they were created; and different datetimes never give the
    same text. *)
Theorem isoformat_compare (d1 d2 : datetime) :
  valid_datetime d1 -> valid_datetime d2 ->
  String.compare (isoformat d1) (isoformat d2) = datetime_compare d1 d2
  /\ (String.ltb (isoformat d1) (isoformat d2) = true <-> datetime_compare d1 d2 = Lt)
  /\ (isoformat d1 = isoformat d2 -> d1 = d2).
Proof.
  intros V1 V2. pose proof (isoformat_text_order d1 d2 V1 V2) as E.
  split; [exact E|split].
  - unfold String.ltb. rewrite E.
    destruct (datetime_compare d1 d2); split; congruence.
  - intros Heq. rewrite Heq in E.
    assert (Hrefl : String.compare (isoformat d2) (isoformat d2) = Eq).
    { pose proof (String.compare_antisym (isoformat d2) (isoformat d2)) as A.
      destruct (String.compare (isoformat d2) (isoformat d2)); [reflexivity| |];
        discriminate. }
    rewrite Hrefl in E. unfold datetime_compare in E.
    destruct d1 as [y1 m1 a1 h1 i1 s1 u1], d2 as [y2 m2 a2 h2 i2 s2 u2].
    cbn [year month day hour minute second microsecond] in E.
    destruct (Z.compare_spec y1 y2); try discriminate.
    destruct (Z.compare_spec m1 m2); try discriminate.
    destruct (Z.compare_spec a1 a2); try discriminate.
    destruct (Z.compare_spec h1 h2); try discriminate.
    destruct (Z.compare_spec i1 i2); try discriminate.
    destruct (Z.compare_spec s1 s2); try discriminate.
    destruct (Z.compare_spec u1 u2); try discriminate.
    now subst.
Qed.

Lemma isoformat_compare_witness :
  String.compare (isoformat (mk_datetime 2024 2 29 23 59 59 0))
                 (isoformat (mk_datetime 2024 2 29 23 59 59 1))
  = Lt.
Proof.
  assert (V : forall us, 0 <= us <= 999999 ->
                         valid_datetime (mk_datetime 2024 2 29 23 59 59 us)).
  { intros us Hus. unfold valid_datetime.
    cbn [year month day hour minute second microsecond].
    change (days_in_month 2024 2) with 29. lia. }
  exact (proj1 (isoformat_compare (mk_datetime 2024 2 29 23 59 59 0)
                                  (mk_datetime 2024 2 29 23 59 59 1)
                                  (V 0 ltac:(lia)) (V 1 ltac:(lia)))).
Defined.

(** X2: the caption of a gallery card, [created_at[:10]], is the date part
    YYYY-MM-DD of the timestamp, and the timestamp has 19 characters when the
    microsecond is 0 and 26 otherwise. *)
Theorem created_caption_is_date (d : datetime) (r : gallery_row) :
  g_created_at r = isoformat d ->
  created_caption r = isodate d
  /\ String.length (isoformat d) = if microsecond d =? 0 then 19%nat else 26%nat.
Proof.
  intros E. unfold created_caption. rewrite E. split.
  - reflexivity.
  - unfold isoformat. cbn [zero_padded String.length].
    destruct (microsecond d =? 0); reflexivity.
Qed.

Lemma created_caption_is_date_witness :
  created_caption (mk_row 1 "Sunrise" "iVBORw0KGgo=" 0 "2024-01-05T09:03:07.000250" "asha")
  = "2024-01-05".
Proof.
  apply (created_caption_is_date (mk_datetime 2024 1 5 9 3 7 250)
           (mk_row 1 "Sunrise" "iVBORw0KGgo=" 0 "2024-01-05T09:03:07.000250" "asha")).
  reflexivity.
Defined.

(** ** The stored digest *)

Lemma hex_digit_is_hex (d : Z) : 0 <= d < 16 -> is_hex_char (SHA256.hex_digit d) = true.
Proof.
  intros H.
  assert (C : d = 0 \/ d = 1 \/ d = 2 \/ d = 3 \/ d = 4 \/ d = 5 \/ d = 6 \/ d = 7 \/ d = 8
              \/ d = 9 \/ d = 10 \/ d = 11 \/ d = 12 \/ d = 13 \/ d = 14 \/ d = 15) by lia.
  repeat (destruct C as [->|C]; [reflexivity|]). subst d. reflexivity.
Qed.

Lemma hex_word_shape (n : nat) (x : Z) (acc : string) :
  String.length (SHA256.hex_word n x acc) = (n + String.length acc)%nat
  /\ (all_hex acc = true -> all_hex (SHA256.hex_word n x acc) = true).
Proof.
  revert x acc. induction n as [|n IH]; intros x acc; cbn [SHA256.hex_word].
  - split; [reflexivity|trivial].
  - destruct (IH (x / 16) (String (SHA256.hex_digit (x mod 16)) acc)) as [Hlen Hhex].
    split.
    + rewrite Hlen. cbn [String.length]. lia.
    + intros Hacc. apply Hhex. cbn [all_hex].
      rewrite hex_digit_is_hex by (apply Z.mod_pos_bound; lia). exact Hacc.
Qed.

Lemma hex_words_shape (ws : list Z) :
  String.length (SHA256.hex_words ws) = (8 * List.length ws)%nat
  /\ all_hex (SHA256.hex_words ws) = true.
Proof.
  induction ws as [|w ws [IHlen IHhex]]; [split; reflexivity|].
  unfold SHA256.hex_words in *. cbn [fold_right List.length].
  destruct (hex_word_shape 8 w (fold_right (fun w acc => SHA256.hex_word 8 w acc)
                                           EmptyString ws)) as [Hlen Hhex].
  split; [rewrite Hlen, IHlen; lia|now apply Hhex].
Qed.

(** X3: whatever the password, even the empty one, what [hash_password]
    returns and [create_user] stores is a text of exactly 64 lower-case
    hexadecimal digits. *)
Theorem hash_password_shape (password : string) :
  String.length (hash_password password) = 64%nat
  /\ all_hex (hash_password password) = true.
Proof.
  unfold hash_password, SHA256.hexdigest.
  destruct (hex_words_shape (SHA256.state_words
                               (SHA256.digest (SHA256.bytes_of_string password))))
    as [Hlen Hhex].
  split; [exact Hlen|exact Hhex].
Qed.

(** ** What calls keep of the store *)

Lemma run_calls_app (cs cs' : list call) (db : DB) :
  run_calls (cs ++ cs') db = run_calls cs' (run_calls cs db).
Proof.
  unfold run_calls. apply fold_left_app.
Qed.

Lemma run_call_wf (c : call) (db : DB) : wf_db db -> wf_db (run_call c db).
Proof.
  intros H. destruct c; cbn [run_call]; try exact H.
  - now apply create_user_wf.
  - rewrite save_artwork_store. destruct (int64 user_id); [|exact H].
    now apply insert_artwork_wf.
  - rewrite like_artwork_store. destruct (int64 artwork_id); [|exact H].
    now apply update_likes_wf.
Qed.

Lemma run_calls_wf (cs : list call) (db : DB) : wf_db db -> wf_db (run_calls cs db).
Proof.
  revert db. induction cs as [|c cs IH]; intros db H; [exact H|].
  apply IH, run_call_wf, H.
Qed.

Lemma update_likes_identity (artwork_id : Z) (db : DB) :
  map artwork_identity (artworks (update_likes artwork_id db))
  = map artwork_identity (artworks db).
Proof.
  unfold update_likes. simpl. rewrite map_map. apply map_ext.
  intros a. now destruct (a_id a =? artwork_id).
Qed.

Lemma run_call_keeps_rows (c : call) (db : DB) :
  (exists new_users, users (run_call c db) = users db ++ new_users)
  /\ (exists new_artworks,
        map artwork_identity (artworks (run_call c db))
        = map artwork_identity (artworks db) ++ new_artworks)
  /\ comments (run_call c db) = comments db.
Proof.
  destruct c as [u p t|u p|uid title img t| |i]; cbn [run_call].
  - unfold create_user, insert_user. destruct (existsb _ (users db)); simpl.
    + repeat split; exists []; now rewrite app_nil_r.
    + repeat split; [eexists; reflexivity|exists []; now rewrite app_nil_r].
  - repeat split; exists []; now rewrite app_nil_r.
  - rewrite save_artwork_store. destruct (int64 uid).
    + repeat split; [exists []; now rewrite app_nil_r|].
      simpl. rewrite map_app. eexists; reflexivity.
    + repeat split; exists []; now rewrite app_nil_r.
  - repeat split; exists []; now rewrite app_nil_r.
  - rewrite like_artwork_store. destruct (int64 i).
    + repeat split; [exists []; now rewrite app_nil_r|].
      exists []. rewrite app_nil_r. apply update_likes_identity.
    + repeat split; exists []; now rewrite app_nil_r.
Qed.

Lemma run_call_keeps_user (c : call) (db : DB) (u : user_row) :
  In u (users db) -> In u (users (run_call c db)).
Proof.
  intros Hin. destruct (run_call_keeps_rows c db) as ([new Hu] & _).
  rewrite Hu. apply in_or_app. now left.
Qed.

(** X4: whatever calls are made, in whatever order, every user row stays as
    it is and in its place, every artwork stays in its place with its id,
    owner, title, image and creation time (only likes can change), new rows
    come after the old ones, and the comments table is never written. *)
Theorem run_calls_keep_rows (cs : list call) (db : DB) :
  (exists new_users, users (run_calls cs db) = users db ++ new_users)
  /\ (exists new_artworks,
        map artwork_identity (artworks (run_calls cs db))
        = map artwork_identity (artworks db) ++ new_artworks)
  /\ comments (run_calls cs db) = comments db.
Proof.
  revert db. induction cs as [|c cs IH]; intros db.
  - repeat split; exists []; now rewrite app_nil_r.
  - change (run_calls (c :: cs) db) with (run_calls cs (run_call c db)).
    destruct (IH (run_call c db)) as ([nu Hu] & [na Ha] & Hc).
    destruct (run_call_keeps_rows c db) as ([nu' Hu'] & [na' Ha'] & Hc').
    repeat split.
    + exists (nu' ++ nu). now rewrite Hu, Hu', app_assoc.
    + exists (na' ++ na). now rewrite Ha, Ha', app_assoc.
    + now rewrite Hc, Hc'.
Qed.

(** ** Row ids are consecutive *)

Lemma fold_max_member (l : list Z) (i : Z) : In (fold_left Z.max l i) (i :: l).
Proof.
  revert i. induction l as [|x l IH]; intros i; simpl; [now left|].
  destruct (IH (Z.max i x)) as [H|H].
  - rewrite <- H. destruct (Z.max_spec i x) as [[_ E]|[_ E]]; rewrite E; auto.
  - right. now right.
Qed.

Lemma next_rowid_rowids (n : nat) : next_rowid (rowids n) = Z.of_nat n + 1.
Proof.
  destruct n as [|n]; [reflexivity|].
  assert (Hin : In (Z.of_nat (S n)) (rowids (S n))).
  { unfold rowids. apply in_map, in_seq. lia. }
  pose proof (next_rowid_above _ _ Hin) as Hup.
  unfold rowids in *. simpl map in *. unfold next_rowid in *.
  pose proof (fold_max_member (map Z.of_nat (seq 2 n)) (Z.of_nat 1)) as Hmem.
  change (Z.of_nat 1 :: map Z.of_nat (seq 2 n)) with (map Z.of_nat (seq 1 (S n))) in Hmem.
  apply in_map_iff in Hmem. destruct Hmem as [k [Hk Hseq]]. apply in_seq in Hseq.
  change (Z.of_nat 1) with 1 in Hk. lia.
Qed.

Lemma rowids_snoc (n : nat) : rowids n ++ [Z.of_nat n + 1] = rowids (S n).
Proof.
  unfold rowids. rewrite seq_S, map_app. simpl. do 2 f_equal. lia.
Qed.

Lemma run_call_rowids (c : call) (db : DB) :
  map u_id (users db) = rowids (List.length (users db)) ->
  map a_id (artworks db) = rowids (List.length (artworks db)) ->
  map u_id (users (run_call c db)) = rowids (List.length (users (run_call c db)))
  /\ map a_id (artworks (run_call c db)) = rowids (List.length (artworks (run_call c db))).
Proof.
  intros Hu Ha.
  destruct c as [u p t|u p|uid title img t| |i]; cbn [run_call]; try (split; assumption).
  - unfold create_user, insert_user. destruct (existsb _ (users db)); simpl; [now split|].
    split; [|exact Ha].
    rewrite map_app, length_app, Hu. simpl.
    rewrite next_rowid_rowids, rowids_snoc. f_equal. lia.
  - rewrite save_artwork_store. destruct (int64 uid); [|now split]. simpl.
    split; [exact Hu|].
    rewrite map_app, length_app, Ha. simpl.
    rewrite next_rowid_rowids, rowids_snoc. f_equal. lia.
  - rewrite like_artwork_store. destruct (int64 i); [|now split]. simpl.
    split; [exact Hu|].
    rewrite map_map, length_map, <- Ha. apply map_ext.
    intros a. now destruct (a_id a =? i).
Qed.

(** X5: a store filled by calls alone, starting from the empty file, has the
    user ids 1, 2, ..., n and the artwork ids 1, 2, ..., m in table order, its
    usernames are pairwise different, and no like counter is negative. *)
Theorem run_calls_from_empty (cs : list call) :
  let db := run_calls cs empty_db in
  map u_id (users db) = rowids (List.length (users db))
  /\ map a_id (artworks db) = rowids (List.length (artworks db))
  /\ NoDup (map u_username (users db))
  /\ Forall (fun a => 0 <= a_likes a) (artworks db).
Proof.
  assert (Hgen : forall db,
             map u_id (users db) = rowids (List.length (users db)) ->
             map a_id (artworks db) = rowids (List.length (artworks db)) ->
             Forall (fun a => 0 <= a_likes a) (artworks db) ->
             map u_id (users (run_calls cs db))
             = rowids (List.length (users (run_calls cs db)))
             /\ map a_id (artworks (run_calls cs db))
                = rowids (List.length (artworks (run_calls cs db)))
             /\ Forall (fun a => 0 <= a_likes a) (artworks (run_calls cs db))).
  { induction cs as [|c cs IH]; intros db Hu Ha Hl; [now repeat split|].
    change (run_calls (c :: cs) db) with (run_calls cs (run_call c db)).
    destruct (run_call_rowids c db Hu Ha) as [Hu' Ha'].
    apply IH; try assumption.
    destruct c as [u p t|u p|uid title img t| |i]; cbn [run_call]; try exact Hl.
    - now rewrite create_user_keeps_artworks.
    - rewrite save_artwork_store. destruct (int64 uid); [|exact Hl]. simpl.
      apply Forall_app. split; [exact Hl|]. repeat constructor. simpl. lia.
    - rewrite like_artwork_store. destruct (int64 i); [|exact Hl]. simpl.
      apply Forall_forall. intros a Hin. apply in_map_iff in Hin.
      destruct Hin as [b [Hb Hin]]. rewrite Forall_forall in Hl. specialize (Hl b Hin).
      destruct (a_id b =? i); subst a; simpl; lia. }
  intros db. destruct (Hgen empty_db eq_refl eq_refl (Forall_nil _)) as (Hu & Ha & Hl).
  repeat split; try assumption.
  apply (run_calls_wf cs empty_db). repeat split; constructor.
Qed.

(** ** Who can log in *)

Lemma filter_single_match (us : list user_row) (row : user_row) (password : string) :
  NoDup (map u_username us) -> In row us -> u_password row = password ->
  filter (fun u => (u_username u =? u_username row)%string
                   && (u_password u =? password)%string) us = [row].
Proof.
  induction us as [|u us IH]; simpl; intros Hnd Hin Hpw; [contradiction|].
  inversion Hnd as [|? ? Hnotin Hnd']; subst.
  destruct Hin as [->|Hin].
  - rewrite !String.eqb_refl. simpl. f_equal.
    apply filter_username_nil. intros v Hv Heq.
    apply Hnotin. rewrite <- Heq. now apply in_map.
  - rewrite (proj2 (String.eqb_neq (u_username u) (u_username row))).
    + simpl. now apply IH.
    + intros Heq. apply Hnotin. rewrite Heq. now apply in_map.
Qed.

(** X6: in a well-formed store [authenticate_user] returns the id of a row
    exactly when that row carries the username and the digest of the
    password, and [None] exactly when no row does; it never returns another
    value. *)
Theorem authenticate_user_iff (db : DB) (username password : string) :
  wf_db db ->
  (forall id,
      authenticate_user username password db = PyInt id
      <-> exists row, In row (users db) /\ u_id row = id /\ u_username row = username
                      /\ u_password row = hash_password password)
  /\ (authenticate_user username password db = PyNone
      <-> forall row, In row (users db) -> u_username row = username ->
                      u_password row <> hash_password password)
  /\ (forall b, authenticate_user username password db <> PyBool b).
Proof.
  intros (_ & _ & Hnd & _).
  assert (Hsound : forall id, authenticate_user username password db = PyInt id ->
                     exists row, In row (users db) /\ u_id row = id
                                 /\ u_username row = username
                                 /\ u_password row = hash_password password).
  { intros id. unfold authenticate_user, select_user_id.
    destruct (filter _ (users db)) as [|u l] eqn:E; [discriminate|].
    intros H. inversion H; subst. exists u.
    assert (Hin : In u (u :: l)) by now left.
    rewrite <- E in Hin. apply filter_In in Hin. destruct Hin as [Hin Hm].
    apply andb_prop in Hm. destruct Hm as [Hn Hp].
    apply String.eqb_eq in Hn. apply String.eqb_eq in Hp. auto. }
  assert (Hcomplete : forall row, In row (users db) -> u_username row = username ->
                        u_password row = hash_password password ->
                        authenticate_user username password db = PyInt (u_id row)).
  { intros row Hin Hn Hp. unfold authenticate_user, select_user_id.
    rewrite <- Hn. now rewrite (filter_single_match _ row _ Hnd Hin Hp). }
  split; [|split].
  - intros id. split; [apply Hsound|].
    intros (row & Hin & <- & Hn & Hp). now apply Hcomplete.
  - split.
    + intros Hnone row Hin Hn Hp.
      rewrite (Hcomplete row Hin Hn Hp) in Hnone. discriminate.
    + intros Hno. destruct (authenticate_user username password db) as [|b|id] eqn:E;
        [reflexivity| |].
      * unfold authenticate_user in E. destruct (select_user_id _ _ _); discriminate.
      * destruct (Hsound id eq_refl) as (row & Hin & _ & Hn & Hp).
        exfalso. exact (Hno row Hin Hn Hp).
  - intros b. unfold authenticate_user. destruct (select_user_id _ _ _); discriminate.
Qed.

Lemma authenticate_user_iff_witness :
  authenticate_user "ravi" "secret"
    (run_calls [ CallCreateUser "asha" "pass123" "2024-01-01T10:00:00";
                 CallCreateUser "ravi" "secret" "2024-01-01T10:01:00" ] empty_db)
  <> PyBool true.
Proof.
  apply (authenticate_user_iff
           (run_calls [ CallCreateUser "asha" "pass123" "2024-01-01T10:00:00";
                        CallCreateUser "ravi" "secret" "2024-01-01T10:01:00" ] empty_db)
           "ravi" "secret").
  repeat split; simpl.
  - repeat constructor.
  - constructor.
  - repeat constructor; simpl; intuition discriminate.
  - repeat constructor.
Defined.

(** X7: an account stays usable: once a row with the username and the digest
    of the password is in a well-formed store, logging in with them returns
    that row's id after any further calls, in any number and order. *)
Theorem login_survives_calls (db : DB) (row : user_row) (password : string)
        (cs : list call) :
  wf_db db ->
  In row (users db) ->
  u_password row = hash_password password ->
  authenticate_user (u_username row) password (run_calls cs db) = PyInt (u_id row).
Proof.
  intros Hwf Hin Hpw.
  pose proof (run_calls_wf cs db Hwf) as (_ & _ & Hnd & _).
  assert (Hin' : In row (users (run_calls cs db))).
  { clear -Hin. revert db Hin. induction cs as [|c cs IH]; intros db Hin; [exact Hin|].
    change (run_calls (c :: cs) db) with (run_calls cs (run_call c db)).
    apply IH. now apply run_call_keeps_user. }
  unfold authenticate_user, select_user_id.
  now rewrite (filter_single_match _ row _ Hnd Hin' Hpw).
Qed.

Lemma login_survives_calls_witness :
  authenticate_user "asha" "pass123"
    (run_calls [ CallCreateUser "ravi" "secret" "2024-01-01T10:01:00";
                 CallCreateUser "asha" "stolen" "2024-01-01T10:02:00";
                 CallSaveArtwork 2 "Lotus" "iVBORw0KGgo=" "2024-01-03T08:00:00";
                 CallLikeArtwork 1 ]
       (fst (create_user "asha" "pass123" "2024-01-01T10:00:00" empty_db)))
  = PyInt 1.
Proof.
  apply (login_survives_calls
           (fst (create_user "asha" "pass123" "2024-01-01T10:00:00" empty_db))
           (mk_user 1 "asha" (hash_password "pass123") "2024-01-01T10:00:00")
           "pass123").
  - repeat split; simpl.
    + repeat constructor.
    + constructor.
    + repeat constructor. intros [].
    + repeat constructor.
  - left. reflexivity.
  - reflexivity.
Defined.

(** ** What the gallery query shows *)

(** X8: [get_artworks] is an inner join: a row is listed exactly when it is
    an artwork put together with a user whose id is the artwork's user_id.  An
    artwork whose user_id is the id of no user is not listed. *)
Theorem get_artworks_rows (db : DB) (r : gallery_row) :
  In r (get_artworks db)
  <-> exists a u, In a (artworks db) /\ In u (users db) /\ u_id u = a_user_id a
                  /\ r = join_row a u.
Proof.
  unfold get_artworks, select_gallery. split.
  - intros H. apply (Permutation_in _ (order_by_perm _)) in H.
    unfold join_artworks_users in H. apply in_flat_map in H.
    destruct H as [a [Ha H]]. apply in_map_iff in H. destruct H as [u [Hr Hu]].
    apply filter_In in Hu. destruct Hu as [Hu Hid]. apply Z.eqb_eq in Hid.
    exists a, u. auto.
  - intros (a & u & Ha & Hu & Hid & ->).
    apply (Permutation_in _ (Permutation_sym (order_by_perm _))).
    unfold join_artworks_users. apply in_flat_map. exists a. split; [exact Ha|].
    apply in_map, filter_In. split; [exact Hu|now apply Z.eqb_eq].
Qed.

Lemma insert_desc_liked (artwork_id : Z) (r : gallery_row) (l : list gallery_row) :
  insert_desc (liked artwork_id r) (map (liked artwork_id) l)
  = map (liked artwork_id) (insert_desc r l).
Proof.
  assert (Hc : forall x, g_created_at (liked artwork_id x) = g_created_at x).
  { intros x. unfold liked. now destruct (int64 artwork_id && (g_id x =? artwork_id)). }
  induction l as [|x l IH]; simpl; [reflexivity|].
  rewrite !Hc. destruct (String.ltb _ _); simpl; [now rewrite IH|reflexivity].
Qed.

Lemma join_liked (artwork_id : Z) (db : DB) :
  int64 artwork_id = true ->
  join_artworks_users (update_likes artwork_id db)
  = map (liked artwork_id) (join_artworks_users db).
Proof.
  intros Hid. unfold join_artworks_users, update_likes. simpl.
  induction (artworks db) as [|a l IH]; simpl; [reflexivity|].
  rewrite map_app, IH. f_equal. rewrite map_map.
  destruct (a_id a =? artwork_id) eqn:E; simpl.
  - apply map_ext. intros u. unfold liked, join_row. simpl. now rewrite Hid, E.
  - apply map_ext. intros u. unfold liked, join_row. simpl. now rewrite Hid, E.
Qed.

Lemma select_gallery_liked (artwork_id : Z) (db : DB) :
  int64 artwork_id = true ->
  select_gallery (update_likes artwork_id db)
  = map (liked artwork_id) (select_gallery db).
Proof.
  intros Hid. unfold select_gallery. rewrite (join_liked _ _ Hid).
  generalize (join_artworks_users db) as rows.
  induction rows as [|r rows IH]; simpl; [reflexivity|].
  now rewrite IH, insert_desc_liked.
Qed.

Lemma liked_out_of_range (artwork_id : Z) (rows : list gallery_row) :
  int64 artwork_id = false -> map (liked artwork_id) rows = rows.
Proof.
  intros Hid. induction rows as [|r rows IH]; simpl; [reflexivity|].
  rewrite IH. unfold liked. now rewrite Hid.
Qed.

Lemma select_gallery_after_like (artwork_id : Z) (db : DB) :
  select_gallery (fst (like_artwork artwork_id db))
  = map (liked artwork_id) (select_gallery db).
Proof.
  rewrite like_artwork_store. destruct (int64 artwork_id) eqn:Hid.
  - now apply select_gallery_liked.
  - now rewrite liked_out_of_range.
Qed.

(** X9: a like does not move anything in the gallery: after
    [like_artwork] the query returns the same rows in the same order, the
    liked artwork with one more like. *)
Theorem get_artworks_after_like (db : DB) (artwork_id : Z) :
  get_artworks (fst (like_artwork artwork_id db))
  = map (liked artwork_id) (get_artworks db)
  /\ map g_id (get_artworks (fst (like_artwork artwork_id db)))
     = map g_id (get_artworks db).
Proof.
  unfold get_artworks. rewrite select_gallery_after_like. split; [reflexivity|].
  rewrite map_map. apply map_ext. intros r. unfold liked.
  now destruct (int64 artwork_id && (g_id r =? artwork_id)).
Qed.

Lemma filter_id_single (us : list user_row) (u : user_row) :
  StronglySorted Z.lt (map u_id us) -> In u us ->
  filter (fun v => u_id v =? u_id u) us = [u].
Proof.
  intros Hs Hin. rewrite (filter_by_id _ _ Hs).
  destruct (find _ us) as [v|] eqn:E.
  - f_equal. apply find_some in E. destruct E as [Hv Hid]. apply Z.eqb_eq in Hid.
    assert (Hnd : NoDup (map u_id us)).
    { clear -Hs. induction Hs as [|x l _ IH Hall]; constructor; [|exact IH].
      intros Hx. rewrite Forall_forall in Hall. specialize (Hall x Hx). lia. }
    exact (nodup_map_inj u_id us v u Hnd Hv Hin Hid).
  - exfalso. pose proof (find_none _ _ E u Hin) as H. simpl in H.
    now rewrite Z.eqb_refl in H.
Qed.

Lemma order_by_snoc_newest (rows : list gallery_row) (r : gallery_row) :
  (forall x, In x rows -> String.ltb (g_created_at x) (g_created_at r) = true) ->
  order_by_created_at_desc (rows ++ [r]) = r :: order_by_created_at_desc rows.
Proof.
  induction rows as [|x rows IH]; simpl; intros H; [reflexivity|].
  rewrite IH by (intros y Hy; apply H; now right). simpl.
  now rewrite (H x (or_introl eq_refl)).
Qed.

Lemma join_after_insert (db : DB) (user_id : Z) (title image_data now : string) :
  join_artworks_users (insert_artwork user_id title image_data now db)
  = join_artworks_users db
    ++ map (join_row (mk_artwork (next_rowid (map a_id (artworks db)))
                                 user_id title image_data 0 now))
           (filter (fun u => u_id u =? user_id) (users db)).
Proof.
  unfold join_artworks_users, insert_artwork. simpl.
  rewrite flat_map_app. simpl. now rewrite app_nil_r.
Qed.

(** X10: when a user of a well-formed store (ids being signed 64-bit
    integers) saves an artwork at a time later than every stored creation
    time, the gallery query returns the new row first, with 0 likes and the
    user's name, followed by what it returned before. *)
Theorem get_artworks_after_save (db : DB) (u : user_row) (title image_data now : string) :
  wf_db db ->
  ids_are_int64 db ->
  In u (users db) ->
  (forall a, In a (artworks db) -> String.ltb (a_created_at a) now = true) ->
  get_artworks (fst (save_artwork (u_id u) title image_data now db))
  = mk_row (next_rowid (map a_id (artworks db))) title image_data 0 now (u_username u)
    :: get_artworks db.
Proof.
  intros (Hs & _) [Hids _] Hin Hnew.
  assert (Hid : int64 (u_id u) = true).
  { rewrite Forall_forall in Hids. apply Hids. now apply in_map. }
  unfold get_artworks, select_gallery. rewrite save_artwork_store, Hid.
  rewrite join_after_insert, (filter_id_single _ _ Hs Hin). cbn [map].
  rewrite order_by_snoc_newest; [reflexivity|].
  intros x Hx. unfold join_artworks_users in Hx. apply in_flat_map in Hx.
  destruct Hx as [a [Ha Hx]]. apply in_map_iff in Hx. destruct Hx as [v [<- _]].
  simpl. now apply Hnew.
Qed.

Lemma get_artworks_after_save_witness :
  let db := run_calls [ CallCreateUser "asha" "pass123" "2024-01-01T10:00:00";
                        CallSaveArtwork 1 "Sunrise" "iVBORw0KGgo=" "2024-01-02T08:00:00" ]
                      empty_db in
  map g_title (get_artworks (fst (save_artwork 1 "Lotus" "iVBORw0KGgo="
                                               "2024-01-02T08:00:00.000001" db)))
  = ["Lotus"; "Sunrise"].
Proof.
  intros db.
  pose proof (get_artworks_after_save db
                (mk_user 1 "asha" (hash_password "pass123") "2024-01-01T10:00:00")
                "Lotus" "iVBORw0KGgo=" "2024-01-02T08:00:00.000001") as E.
  cbn [u_id u_username] in E. rewrite E.
  - reflexivity.
  - repeat split; simpl.
    + repeat constructor.
    + repeat constructor.
    + repeat constructor. intros [].
    + repeat constructor.
  - split; repeat constructor.
  - left. reflexivity.
  - intros a [<-|[]]. reflexivity.
Defined.

(** X11: when [save_artwork] is called with a user_id, a signed 64-bit
    integer, that no user has, the row is stored at the end of the artworks
    table, and the gallery query returns exactly what it returned before. *)
Theorem get_artworks_hides_orphan (db : DB) (user_id : Z) (title image_data now : string) :
  int64 user_id = true ->
  (forall u, In u (users db) -> u_id u <> user_id) ->
  let db' := fst (save_artwork user_id title image_data now db) in
  artworks db'
  = artworks db ++ [mk_artwork (next_rowid (map a_id (artworks db)))
                               user_id title image_data 0 now]
  /\ get_artworks db' = get_artworks db.
Proof.
  intros Hid Hnone db'. subst db'. rewrite save_artwork_store, Hid.
  split; [reflexivity|].
  unfold get_artworks, select_gallery. rewrite join_after_insert.
  assert (E : filter (fun u => u_id u =? user_id) (users db) = []).
  { induction (users db) as [|v l IH]; simpl; [reflexivity|].
    rewrite (proj2 (Z.eqb_neq _ _)) by (apply Hnone; now left).
    apply IH. intros w Hw. apply Hnone. now right. }
  rewrite E. simpl. now rewrite app_nil_r.
Qed.

Lemma get_artworks_hides_orphan_witness :
  let db := fst (create_user "asha" "pass123" "2024-01-01T10:00:00" empty_db) in
  let db' := fst (save_artwork 7 "Sunrise" "iVBORw0KGgo=" "2024-01-01T10:05:00" db) in
  artworks db' = [mk_artwork 1 7 "Sunrise" "iVBORw0KGgo=" 0 "2024-01-01T10:05:00"]
  /\ get_artworks db' = [].
Proof.
  intros db.
  apply (get_artworks_hides_orphan db 7 "Sunrise" "iVBORw0KGgo=" "2024-01-01T10:05:00").
  - reflexivity.
  - intros u [<-|[]]. simpl. lia.
Defined.

(** ** Searching the gallery *)

Lemma contains_refl (s : string) : contains s s = true.
Proof.
  apply contains_spec. exists EmptyString, EmptyString. simpl.
  induction s as [|c s IH]; simpl; [reflexivity|now rewrite <- IH].
Qed.

Section SearchFacts.

Variable lower : string -> string.

(** X12: whatever the search term, the page never shows a row that
    [get_artworks] did not return; and every row that [get_artworks] returns
    is shown when the term is its title or its artist's name, typed in any
    letter case that [lower] maps to the same text. *)
Theorem search_finds_own_title (db : DB) (term : string) (sort_by : sort_option) :
  (forall x, In x (gallery_page lower term sort_by db) -> In x (get_artworks db))
  /\ (forall r, In r (get_artworks db) ->
                lower term = lower (g_title r) \/ lower term = lower (g_artist r) ->
                In r (gallery_page lower term sort_by db)).
Proof.
  rewrite gallery_page_loop. split.
  - intros x Hx. now apply gallery_loop_in in Hx.
  - intros r Hin Hterm. apply gallery_loop_in. split; [exact Hin|].
    right. destruct Hterm as [->| ->]; [left|right]; apply contains_refl.
Qed.

Lemma gallery_loop_liked (term : string) (artwork_id : Z) (rows : list gallery_row) :
  gallery_loop lower term (map (liked artwork_id) rows)
  = map (liked artwork_id) (gallery_loop lower term rows).
Proof.
  assert (Ht : forall x, g_title (liked artwork_id x) = g_title x)
    by (intros x; unfold liked; now destruct (int64 artwork_id && (g_id x =? artwork_id))).
  assert (Ha : forall x, g_artist (liked artwork_id x) = g_artist x)
    by (intros x; unfold liked; now destruct (int64 artwork_id && (g_id x =? artwork_id))).
  induction rows as [|x rows IH]; simpl; [reflexivity|].
  rewrite Ht, Ha, IH.
  now destruct (negb (term =? "")%string
                && negb (contains (lower term) (lower (g_title x)))
                && negb (contains (lower term) (lower (g_artist x)))).
Qed.

(** X13: pressing a like button leaves the page as it is but for the
    counter: under the same search term the page shows the same cards in the
    same order after [like_artwork], the liked one with one more like. *)
Theorem gallery_page_after_like (db : DB) (term : string) (sort_by : sort_option)
        (artwork_id : Z) :
  gallery_page lower term sort_by (fst (like_artwork artwork_id db))
  = map (liked artwork_id) (gallery_page lower term sort_by db).
Proof.
  rewrite !gallery_page_loop. unfold get_artworks.
  now rewrite select_gallery_after_like, gallery_loop_liked.
Qed.

End SearchFacts.

Lemma search_finds_own_title_witness :
  let db := run_calls [ CallCreateUser "asha" "pass123" "2024-01-01T10:00:00";
                        CallSaveArtwork 1 "Sunrise" "iVBORw0KGgo=" "2024-01-02T08:00:00";
                        CallSaveArtwork 1 "Lotus" "iVBORw0KGgo=" "2024-01-03T08:00:00" ]
                      empty_db in
  In (mk_row 1 "Sunrise" "iVBORw0KGgo=" 0 "2024-01-02T08:00:00" "asha")
     (gallery_page ascii_lower "SUNRISE" MostLiked db).
Proof.
  intros db.
  apply (proj2 (search_finds_own_title ascii_lower db "SUNRISE" MostLiked)
           (mk_row 1 "Sunrise" "iVBORw0KGgo=" 0 "2024-01-02T08:00:00" "asha")).
  - right. left. reflexivity.
  - left. reflexivity.
Defined.

(** ** The Account page *)

Lemma fold_left_add (l : list Z) (a : Z) :
  fold_left Z.add l a = a + fold_right Z.add 0 l.
Proof.
  revert a. induction l as [|x l IH]; intros a; simpl; [lia|].
  rewrite IH. lia.
Qed.

Lemma sum_perm (l l' : list Z) :
  Permutation l l' -> fold_right Z.add 0 l = fold_right Z.add 0 l'.
Proof.
  intros H. induction H; simpl; lia.
Qed.

Lemma insert_account_desc_perm (r : account_row) (l : list account_row) :
  Permutation (insert_account_desc r l) (r :: l).
Proof.
  induction l as [|x l IH]; simpl; [reflexivity|].
  destruct (String.ltb _ _); [|reflexivity].
  rewrite IH. apply perm_swap.
Qed.

Lemma order_account_perm (l : list account_row) :
  Permutation (fold_right insert_account_desc [] l) l.
Proof.
  induction l as [|r l IH]; simpl; [reflexivity|].
  rewrite insert_account_desc_perm. now constructor.
Qed.

Lemma or_zero_sum (user_id : Z) (db : DB) :
  or_zero (select_sum_likes user_id db)
  = fold_right Z.add 0 (map a_likes (artworks_of user_id db)).
Proof.
  unfold select_sum_likes. destruct (artworks_of user_id db) as [|a l] eqn:E;
    [reflexivity|].
  unfold or_zero. rewrite fold_left_add.
  destruct (Z.eqb_spec (0 + fold_right Z.add 0 (map a_likes (a :: l))) 0); lia.
Qed.

Lemma owned_after_like (user_id artwork_id : Z) (l : list artwork_row) :
  let l' := map (fun x => if a_id x =? artwork_id
                          then mk_artwork (a_id x) (a_user_id x) (a_title x)
                                          (a_image_data x) (a_likes x + 1) (a_created_at x)
                          else x) l in
  List.length (filter (fun x => a_user_id x =? user_id) l')
  = List.length (filter (fun x => a_user_id x =? user_id) l)
  /\ fold_right Z.add 0 (map a_likes (filter (fun x => a_user_id x =? user_id) l))
     <= fold_right Z.add 0 (map a_likes (filter (fun x => a_user_id x =? user_id) l')).
Proof.
  induction l as [|x l [IHlen IHsum]]; simpl; [split; [reflexivity|lia]|].
  destruct (a_id x =? artwork_id); simpl;
    destruct (a_user_id x =? user_id); simpl; split; lia.
Qed.

Lemma owned_after_call (user_id : Z) (c : call) (db : DB) :
  (List.length (artworks_of user_id db)
   <= List.length (artworks_of user_id (run_call c db)))%nat
  /\ fold_right Z.add 0 (map a_likes (artworks_of user_id db))
     <= fold_right Z.add 0 (map a_likes (artworks_of user_id (run_call c db))).
Proof.
  unfold artworks_of.
  destruct c as [u p t|u p|uid title img t| |i]; cbn [run_call].
  - rewrite create_user_keeps_artworks. split; lia.
  - split; lia.
  - rewrite save_artwork_store. destruct (int64 uid); [|split; lia].
    cbn [insert_artwork artworks]. rewrite filter_app, length_app, !map_app.
    cbn [filter a_user_id]. destruct (uid =? user_id); simpl.
    + split; [lia|].
      generalize (map a_likes (filter (fun a => a_user_id a =? user_id) (artworks db))).
      intros l. induction l as [|x l IH]; simpl; lia.
    + rewrite !app_nil_r. split; lia.
  - split; lia.
  - rewrite like_artwork_store. destruct (int64 i); [|split; lia].
    cbn [update_likes artworks].
    destruct (owned_after_like user_id i (artworks db)) as [Hlen Hsum].
    split; [rewrite Hlen; lia|exact Hsum].
Qed.

Lemma owned_after_calls (user_id : Z) (cs : list call) (db : DB) :
  (List.length (artworks_of user_id db)
   <= List.length (artworks_of user_id (run_calls cs db)))%nat
  /\ fold_right Z.add 0 (map a_likes (artworks_of user_id db))
     <= fold_right Z.add 0 (map a_likes (artworks_of user_id (run_calls cs db))).
Proof.
  revert db. induction cs as [|c cs IH]; intros db; [split; simpl; lia|].
  change (run_calls (c :: cs) db) with (run_calls cs (run_call c db)).
  destruct (IH (run_call c db)) as [H1 H2].
  destruct (owned_after_call user_id c db) as [H3 H4]. split; lia.
Qed.

Lemma listed_count_sum (user_id : Z) (db : DB) :
  List.length (select_user_artworks user_id db) = List.length (artworks_of user_id db)
  /\ fold_right Z.add 0 (map r_likes (select_user_artworks user_id db))
     = fold_right Z.add 0 (map a_likes (artworks_of user_id db)).
Proof.
  pose proof (order_account_perm (map account_row_of (artworks_of user_id db))) as Hperm.
  unfold select_user_artworks. split.
  - now rewrite (Permutation_length Hperm), length_map.
  - now rewrite (sum_perm _ _ (Permutation_map r_likes Hperm)), map_map.
Qed.

(** X14: on the Account page of a logged-in user, whatever other sessions
    write between the page's three queries, Artworks Created is at most the
    number of artworks listed below and Total Likes is at most the sum of their
    likes; when the three queries see the same store the metrics are that
    number and that sum, both 0 when the list is empty (the SUM is NULL
    then). *)
Theorem account_page_metrics (me : session_state) (db : DB) (cs1 cs2 : list call)
        (v : account_view) :
  let db_sum := run_calls cs1 db in
  let db_list := run_calls cs2 db_sum in
  account_page me db db_sum db_list = AccountShown v ->
  artwork_count v <= Z.of_nat (List.length (user_artworks v))
  /\ total_likes v <= fold_right Z.add 0 (map r_likes (user_artworks v))
  /\ (db_sum = db -> db_list = db ->
      artwork_count v = Z.of_nat (List.length (user_artworks v))
      /\ total_likes v = fold_right Z.add 0 (map r_likes (user_artworks v))
      /\ (user_artworks v = [] -> artwork_count v = 0 /\ total_likes v = 0)).
Proof.
  intros db_sum db_list. unfold account_page.
  destruct (ss_user_id me) as [| |uid]; try discriminate.
  destruct (truthy (PyInt uid)); [|discriminate].
  destruct (int64 uid); [|discriminate].
  intros H. inversion H; subst v; clear H. cbn [artwork_count total_likes user_artworks].
  rewrite (or_zero_sum uid db_sum). unfold select_count.
  destruct (listed_count_sum uid db_list) as [Hlen Hsum]. rewrite Hlen, Hsum.
  destruct (owned_after_calls uid cs1 db) as [Hc1 _]. fold db_sum in Hc1.
  destruct (owned_after_calls uid cs2 db_sum) as [Hc2 Hs2]. fold db_list in Hc2, Hs2.
  split; [lia|split; [exact Hs2|]].
  intros E1 E2. rewrite E1, E2.
  split; [reflexivity|split; [reflexivity|]].
  intros Hnil. rewrite E2 in Hlen, Hsum. rewrite <- Hlen, <- Hsum, Hnil. split; reflexivity.
Qed.

Lemma account_page_metrics_witness :
  let db := run_calls [ CallCreateUser "asha" "pass123" "2024-01-01T10:00:00";
                        CallSaveArtwork 1 "Sunrise" "iVBORw0KGgo=" "2024-01-02T08:00:00";
                        CallLikeArtwork 1 ]
                      empty_db in
  let between := [ CallSaveArtwork 1 "Lotus" "iVBORw0KGgo=" "2024-01-03T08:00:00" ] in
  let after := [ CallLikeArtwork 2; CallLikeArtwork 1 ] in
  let v := mk_account_view (select_count 1 db)
                           (or_zero (select_sum_likes 1 (run_calls between db)))
                           (select_user_artworks 1 (run_calls after (run_calls between db))) in
  (artwork_count v, total_likes v, map r_likes (user_artworks v)) = (1, 1, [1; 2])
  /\ artwork_count v <= Z.of_nat (List.length (user_artworks v)).
Proof.
  intros db between after v. split; [reflexivity|].
  exact (proj1 (account_page_metrics (mk_session (PyInt 1) (Some "asha")) db between after v
                  eq_refl)).
Defined.

(** *** The Account page and the gallery show the same artworks *)

Lemma ltb_irrefl_text (s : string) : String.ltb s s = false.
Proof.
  unfold String.ltb. pose proof (String.compare_antisym s s) as H.
  destruct (String.compare s s); try reflexivity; discriminate.
Qed.

Lemma ltb_false_trans (r x y : string) :
  String.ltb r x = false -> String.ltb x y = false -> String.ltb r y = false.
Proof.
  intros Hrx Hxy. destruct (String.ltb r y) eqn:E; [|reflexivity].
  destruct (ltb_false_cases _ _ Hxy) as [H|H].
  - now rewrite (ltb_trans _ _ _ E H) in Hrx.
  - subst y. congruence.
Qed.

Lemma insert_desc_front (r : gallery_row) (l : list gallery_row) :
  (forall y, In y l -> String.ltb (g_created_at r) (g_created_at y) = false) ->
  insert_desc r l = r :: l.
Proof.
  destruct l as [|x l]; simpl; [reflexivity|].
  intros H. now rewrite (H x (or_introl eq_refl)).
Qed.

Lemma insert_desc_newest_first (r : gallery_row) (l : list gallery_row) :
  newest_first l -> newest_first (insert_desc r l).
Proof.
  unfold newest_first. induction l as [|x l IH]; simpl; intros Hs.
  - repeat constructor.
  - inversion Hs as [|? ? Hs' Hall]; subst. rewrite Forall_forall in Hall.
    destruct (String.ltb (g_created_at r) (g_created_at x)) eqn:E.
    + constructor; [now apply IH|].
      apply Forall_forall. intros y Hy.
      apply (Permutation_in _ (insert_desc_perm r l)) in Hy.
      destruct Hy as [<-|Hy]; [|now apply Hall].
      destruct (String.ltb (g_created_at x) (g_created_at r)) eqn:F; [|reflexivity].
      pose proof (ltb_trans _ _ _ E F) as C. now rewrite ltb_irrefl_text in C.
    + constructor; [exact Hs|].
      apply Forall_forall. intros y [<-|Hy]; [exact E|].
      exact (ltb_false_trans _ _ _ E (Hall y Hy)).
Qed.

Lemma order_by_newest_first (l : list gallery_row) :
  newest_first (order_by_created_at_desc l).
Proof.
  induction l as [|r l IH]; simpl; [constructor|].
  now apply insert_desc_newest_first.
Qed.

Lemma filter_insert_desc (p : gallery_row -> bool) (r : gallery_row)
      (l : list gallery_row) :
  newest_first l ->
  filter p (insert_desc r l)
  = if p r then insert_desc r (filter p l) else filter p l.
Proof.
  unfold newest_first. induction l as [|x l IH]; intros Hs.
  - simpl. now destruct (p r).
  - inversion Hs as [|? ? Hs' Hall]; subst. rewrite Forall_forall in Hall.
    cbn [insert_desc].
    destruct (String.ltb (g_created_at r) (g_created_at x)) eqn:E.
    + cbn [filter]. rewrite (IH Hs').
      destruct (p r), (p x); cbn [insert_desc]; rewrite ?E; reflexivity.
    + cbn [filter]. destruct (p r) eqn:Pr; [|reflexivity].
      destruct (p x); cbn [insert_desc]; rewrite ?E; [reflexivity|].
      symmetry. apply insert_desc_front.
      intros y Hy. apply filter_In in Hy. destruct Hy as [Hy _].
      exact (ltb_false_trans _ _ _ E (Hall y Hy)).
Qed.

Lemma filter_order_by (p : gallery_row -> bool) (l : list gallery_row) :
  filter p (order_by_created_at_desc l) = order_by_created_at_desc (filter p l).
Proof.
  induction l as [|r l IH]; simpl; [reflexivity|].
  rewrite filter_insert_desc by apply order_by_newest_first.
  destruct (p r); simpl; now rewrite IH.
Qed.

Lemma map_order_by_account (l : list gallery_row) :
  map account_row_of_gallery (order_by_created_at_desc l)
  = fold_right insert_account_desc [] (map account_row_of_gallery l).
Proof.
  induction l as [|r l IH]; simpl; [reflexivity|].
  rewrite <- IH. generalize (order_by_created_at_desc l) as sorted.
  induction sorted as [|x sorted IHs]; simpl; [reflexivity|].
  destruct (String.ltb (g_created_at r) (g_created_at x)); simpl; [now rewrite IHs|reflexivity].
Qed.

Lemma filter_flat_map {A B : Type} (p : B -> bool) (f : A -> list B) (l : list A) :
  filter p (flat_map f l) = flat_map (fun a => filter p (f a)) l.
Proof.
  induction l as [|a l IH]; simpl; [reflexivity|].
  now rewrite filter_app, IH.
Qed.

Lemma flat_map_optional {A B : Type} (test : A -> bool) (g : A -> B) (l : list A) :
  flat_map (fun a => if test a then [g a] else []) l = map g (filter test l).
Proof.
  induction l as [|a l IH]; simpl; [reflexivity|].
  destruct (test a); simpl; now rewrite IH.
Qed.

Lemma cards_of_user (db : DB) (u : user_row) :
  wf_db db -> In u (users db) ->
  filter (fun r => (g_artist r =? u_username u)%string) (join_artworks_users db)
  = map (fun a => join_row a u) (artworks_of (u_id u) db).
Proof.
  intros (Hs & _ & Hnd & _) Hin. unfold join_artworks_users, artworks_of.
  rewrite filter_flat_map, <- flat_map_optional. apply flat_map_ext. intros a.
  destruct (Z.eqb_spec (a_user_id a) (u_id u)) as [E|E].
  - rewrite E, (filter_id_single _ _ Hs Hin). simpl. now rewrite String.eqb_refl.
  - induction (users db) as [|v l IH]; simpl; [reflexivity|].
    simpl in Hs, Hnd. inversion Hs; inversion Hnd; subst.
    destruct (Z.eqb_spec (u_id v) (a_user_id a)) as [F|F]; simpl.
    + destruct (String.eqb_spec (u_username v) (u_username u)) as [G|G].
      * exfalso. destruct Hin as [->|Hin]; [congruence|].
        match goal with H : ~ In _ _ |- _ => apply H end.
        rewrite G. now apply in_map.
      * destruct Hin as [->|Hin]; [congruence|]. now apply IH.
    + destruct Hin as [->|Hin].
      * clear IH. match goal with H : ~ In (u_username u) _ |- _ => rename H into Hnot end.
        match goal with H : Forall (Z.lt (u_id u)) _ |- _ => rename H into Hlt end.
        clear -Hnot Hlt E. induction l as [|w l IH]; simpl; [reflexivity|].
        inversion Hlt; subst.
        destruct (u_id w =? a_user_id a); simpl.
        -- rewrite (proj2 (String.eqb_neq (u_username w) (u_username u))).
           ++ apply IH; [|assumption]. intros H. apply Hnot. now right.
           ++ intros G. apply Hnot. left. exact G.
        -- apply IH; [|assumption]. intros H. apply Hnot. now right.
      * now apply IH.
Qed.

(** X15: in a well-formed store the Account page of a user lists exactly the
    gallery cards that carry the user's name, in the gallery's order, each
    with its title, image, likes and creation time. *)
Theorem account_lists_own_cards (db : DB) (u : user_row) :
  wf_db db -> In u (users db) ->
  select_user_artworks (u_id u) db
  = map account_row_of_gallery
        (filter (fun r => (g_artist r =? u_username u)%string) (get_artworks db)).
Proof.
  intros Hwf Hin. unfold get_artworks, select_gallery, select_user_artworks.
  rewrite filter_order_by, map_order_by_account, (cards_of_user db u Hwf Hin).
  now rewrite map_map.
Qed.

Lemma account_lists_own_cards_witness :
  let db := run_calls [ CallCreateUser "asha" "pass123" "2024-01-01T10:00:00";
                        CallCreateUser "ravi" "secret" "2024-01-01T10:01:00";
                        CallSaveArtwork 1 "Sunrise" "iVBORw0KGgo=" "2024-01-02T08:00:00";
                        CallSaveArtwork 2 "Lotus" "iVBORw0KGgo=" "2024-01-03T08:00:00";
                        CallSaveArtwork 1 "Peacock" "iVBORw0KGgo=" "2024-01-04T08:00:00" ]
                      empty_db in
  map r_title (select_user_artworks 1 db) = ["Peacock"; "Sunrise"].
Proof.
  intros db.
  pose proof (account_lists_own_cards db
                (mk_user 1 "asha" (hash_password "pass123") "2024-01-01T10:00:00")) as E.
  cbn [u_id u_username] in E. rewrite E.
  - reflexivity.
  - repeat split; simpl.
    + repeat constructor.
    + repeat constructor.
    + repeat constructor; simpl; intuition discriminate.
    + repeat constructor.
  - left. reflexivity.
Defined.

(** *** Metrics after a like *)

Lemma sum_after_like (l : list artwork_row) (a : artwork_row) (user_id : Z) :
  NoDup (map a_id l) -> In a l ->
  fold_right Z.add 0
    (map a_likes
       (filter (fun x => a_user_id x =? user_id)
          (map (fun x => if a_id x =? a_id a
                         then mk_artwork (a_id x) (a_user_id x) (a_title x)
                                         (a_image_data x) (a_likes x + 1) (a_created_at x)
                         else x) l)))
  = fold_right Z.add 0 (map a_likes (filter (fun x => a_user_id x =? user_id) l))
    + (if a_user_id a =? user_id then 1 else 0).
Proof.
  induction l as [|x l IH]; simpl; intros Hnd Hin; [contradiction|].
  inversion Hnd as [|? ? Hnotin Hnd']; subst.
  destruct Hin as [->|Hin].
  - rewrite Z.eqb_refl. simpl.
    rewrite (map_likes_id (a_id a) l).
    + destruct (a_user_id a =? user_id); simpl; lia.
    + intros b Hb Heq. apply Hnotin. rewrite <- Heq. now apply in_map.
  - rewrite (proj2 (Z.eqb_neq (a_id x) (a_id a))).
    + destruct (a_user_id x =? user_id); simpl; rewrite (IH Hnd' Hin); lia.
    + intros Heq. apply Hnotin. rewrite Heq. now apply in_map.
Qed.

Lemma sorted_ids_nodup (ids : list Z) : StronglySorted Z.lt ids -> NoDup ids.
Proof.
  intros Hs. induction Hs as [|x l _ IH Hall]; constructor; [|exact IH].
  intros Hx. rewrite Forall_forall in Hall. specialize (Hall x Hx). lia.
Qed.

(** X16: when an artwork of a well-formed store (ids being signed 64-bit
    integers) is liked, the Total Likes metric of its owner's Account page
    rises by exactly 1 and that of every other user stays; Artworks Created
    stays for everybody. *)
Theorem account_metrics_after_like (db : DB) (a : artwork_row) (user_id : Z) :
  wf_db db -> ids_are_int64 db -> In a (artworks db) ->
  let db' := fst (like_artwork (a_id a) db) in
  or_zero (select_sum_likes user_id db')
  = or_zero (select_sum_likes user_id db) + (if a_user_id a =? user_id then 1 else 0)
  /\ select_count user_id db' = select_count user_id db.
Proof.
  intros (_ & Hs & _) [_ Hids] Hin db'. subst db'.
  assert (Hid : int64 (a_id a) = true).
  { rewrite Forall_forall in Hids. apply Hids. now apply in_map. }
  rewrite like_artwork_store, Hid. split.
  - rewrite !or_zero_sum. unfold artworks_of, update_likes. cbn [artworks].
    apply sum_after_like; [now apply sorted_ids_nodup|exact Hin].
  - unfold select_count, artworks_of, update_likes. cbn [artworks]. f_equal.
    exact (proj1 (owned_after_like user_id (a_id a) (artworks db))).
Qed.

Lemma account_metrics_after_like_witness :
  let db := run_calls [ CallCreateUser "asha" "pass123" "2024-01-01T10:00:00";
                        CallCreateUser "ravi" "secret" "2024-01-01T10:01:00";
                        CallSaveArtwork 1 "Sunrise" "iVBORw0KGgo=" "2024-01-02T08:00:00";
                        CallSaveArtwork 2 "Lotus" "iVBORw0KGgo=" "2024-01-03T08:00:00" ]
                      empty_db in
  or_zero (select_sum_likes 2 (fst (like_artwork 2 db))) = 1
  /\ or_zero (select_sum_likes 1 (fst (like_artwork 2 db))) = 0.
Proof.
  intros db.
  assert (Hwf : wf_db db).
  { repeat split; simpl.
    - repeat constructor.
    - repeat constructor.
    - repeat constructor; simpl; intuition discriminate.
    - repeat constructor. }
  assert (Hids : ids_are_int64 db) by (split; repeat constructor).
  assert (Hin : In (mk_artwork 2 2 "Lotus" "iVBORw0KGgo=" 0 "2024-01-03T08:00:00")
                   (artworks db))
    by (right; left; reflexivity).
  split.
  - exact (proj1 (account_metrics_after_like db _ 2 Hwf Hids Hin)).
  - exact (proj1 (account_metrics_after_like db _ 1 Hwf Hids Hin)).
Defined.

(** ** Sessions *)

Lemma authenticate_user_row (db : DB) (username password : string) (z : Z) :
  authenticate_user username password db = PyInt z ->
  exists row, In row (users db) /\ u_id row = z /\ u_username row = username
              /\ u_password row = hash_password password.
Proof.
  unfold authenticate_user, select_user_id.
  destruct (filter _ (users db)) as [|u l] eqn:E; [discriminate|].
  intros H. inversion H; subst. exists u.
  assert (Hin : In u (u :: l)) by now left.
  rewrite <- E in Hin. apply filter_In in Hin. destruct Hin as [Hin Hm].
  apply andb_prop in Hm. destruct Hm as [Hn Hp].
  apply String.eqb_eq in Hn. apply String.eqb_eq in Hp. auto.
Qed.

Lemma session_matches_more_users (db db' : DB) (s : session_state) :
  (forall u, In u (users db) -> In u (users db')) ->
  session_matches db s -> session_matches db' s.
Proof.
  intros Hsub. unfold session_matches.
  destruct (ss_user_id s), (ss_username s); try tauto.
  intros [Hz (row & Hin & Hid & Hn)]. split; [exact Hz|].
  exists row. auto.
Qed.

Section SessionFacts.

Variable lower : string -> string.

Lemma app_step_sessions (st : app_state) (sid : nat) (ev : event) :
  app_invariant st ->
  (forall k, session_matches (store st) (sessions st k)) ->
  forall k, session_matches (store (app_step lower st sid ev)) (sessions (app_step lower st sid ev) k).
Proof.
  intros (Hwf & _ & _) Hs k.
  destruct ev as [u p t|u p| |title img t|term sort_by i]; simpl.
  - destruct (ss_user_id (sessions st sid)); try apply Hs. simpl.
    apply (session_matches_more_users (store st)); [|apply Hs].
    intros v. apply create_user_keeps_users.
  - destruct (ss_user_id (sessions st sid)); try apply Hs.
    destruct (authenticate_user u p (store st)) as [|b|z] eqn:E; simpl; try apply Hs.
    + unfold authenticate_user in E. destruct (select_user_id _ _ _); discriminate.
    + destruct (z =? 0) eqn:Z0; simpl; [apply Hs|].
      unfold set_session. destruct (Nat.eqb k sid); [|apply Hs].
      unfold session_matches. simpl.
      destruct (authenticate_user_row _ _ _ _ E) as (row & Hin & Hid & Hn & _).
      split; [|exists row; auto].
      destruct Hwf as (_ & _ & _ & Hpos). rewrite Forall_forall in Hpos.
      rewrite <- Hid. apply Hpos. now apply in_map.
  - destruct (ss_user_id (sessions st sid)); try apply Hs; simpl;
      unfold set_session; (destruct (Nat.eqb k sid); [exact I|apply Hs]).
  - destruct (ss_user_id (sessions st sid)) as [| |z]; try apply Hs.
    destruct (negb (z =? 0)); [|apply Hs]. cbn [store sessions].
    apply (session_matches_more_users (store st)); [|apply Hs].
    intros v. exact (run_call_keeps_user (CallSaveArtwork z title img t) (store st) v).
  - destruct (existsb _ _); [|apply Hs]. cbn [store sessions].
    apply (session_matches_more_users (store st)); [|apply Hs].
    intros v. exact (run_call_keeps_user (CallLikeArtwork i) (store st) v).
Qed.

(** X17: in every state the application reaches, every session is either
    logged out, with user_id and username both [None], or holds the id (a
    positive number) and the username of one and the same row of the users
    table. *)
Theorem sessions_match_users (evs : list (nat * event)) (sid : nat) :
  session_matches (store (run_app lower evs)) (sessions (run_app lower evs) sid).
Proof.
  unfold run_app.
  assert (Hgen : forall st,
             app_invariant st ->
             (forall k, session_matches (store st) (sessions st k)) ->
             forall k,
               session_matches
                 (store (fold_left (fun st e => app_step lower st (fst e) (snd e)) evs st))
                 (sessions (fold_left (fun st e => app_step lower st (fst e) (snd e)) evs st)
                           k)).
  { induction evs as [|e evs IH]; intros st Hinv Hs k; simpl; [apply Hs|].
    apply IH.
    - now apply app_step_invariant.
    - now apply app_step_sessions. }
  apply Hgen; [apply initial_app_invariant|].
  intros k. exact I.
Qed.

(** X18: in a state the application reaches, a logged-out session that submits
    the username and password of a stored account is logged in as that
    account (the id is never 0, so [if user_id:] lets it through); when no row
    has the username with the digest of the password, the click changes
    nothing.  The store is untouched either way. *)
Theorem login_outcome (evs : list (nat * event)) (sid : nat) (username password : string) :
  let st := run_app lower evs in
  ss_user_id (sessions st sid) = PyNone ->
  (forall row, In row (users (store st)) -> u_username row = username ->
               u_password row = hash_password password ->
               app_step lower st sid (Login username password)
               = mk_app (store st)
                        (set_session sid (mk_session (PyInt (u_id row)) (Some username))
                                     (sessions st)))
  /\ ((forall row, In row (users (store st)) -> u_username row = username ->
                   u_password row <> hash_password password) ->
      app_step lower st sid (Login username password) = st).
Proof.
  intros st Hout.
  pose proof (run_app_invariant lower evs) as (Hwf & _ & _). fold st in Hwf.
  pose proof Hwf as (_ & _ & Hnd & Hpos).
  cbn [app_step]. rewrite Hout. split.
  - intros row Hin Hn Hp.
    assert (E : authenticate_user username password (store st) = PyInt (u_id row)).
    { unfold authenticate_user, select_user_id. rewrite <- Hn.
      now rewrite (filter_single_match _ row _ Hnd Hin Hp). }
    rewrite E. cbn [truthy].
    rewrite Forall_forall in Hpos. specialize (Hpos _ (in_map u_id _ _ Hin)).
    rewrite (proj2 (Z.eqb_neq (u_id row) 0)) by lia. reflexivity.
  - intros Hno.
    destruct (authenticate_user username password (store st)) as [|b|z] eqn:E;
      cbn [truthy]; try reflexivity.
    + unfold authenticate_user in E. destruct (select_user_id _ _ _); discriminate.
    + destruct (authenticate_user_row _ _ _ _ E) as (row & Hin & _ & Hn & Hp).
      exfalso. exact (Hno row Hin Hn Hp).
Qed.

(** X19: a visitor who is not logged in cannot add or alter an artwork:
    whatever the event, after the step every artwork is where it was with its
    id, owner, title, image and creation time, and there is no new one (a like
    changes a counter only). *)
Theorem logged_out_cannot_save (st : app_state) (sid : nat) (ev : event) :
  ss_user_id (sessions st sid) = PyNone ->
  map artwork_identity (artworks (store (app_step lower st sid ev)))
  = map artwork_identity (artworks (store st)).
Proof.
  intros Hout. destruct ev as [u p t|u p| |title img t|term sort_by i]; cbn [app_step].
  - rewrite Hout. cbn [store]. now rewrite create_user_keeps_artworks.
  - rewrite Hout. now destruct (truthy (authenticate_user u p (store st))).
  - now rewrite Hout.
  - now rewrite Hout.
  - destruct (existsb _ _); [|reflexivity]. cbn [store].
    rewrite like_artwork_store. destruct (int64 i); [|reflexivity].
    apply update_likes_identity.
Qed.

End SessionFacts.

Lemma login_outcome_witness :
  let evs := [ (0%nat, SignUp "asha" "pass123" "2024-01-01T10:00:00") ] in
  sessions (app_step ascii_lower (run_app ascii_lower evs) 5 (Login "asha" "pass123")) 5%nat
  = mk_session (PyInt 1) (Some "asha").
Proof.
  intros evs.
  rewrite (proj1 (login_outcome ascii_lower evs 5 "asha" "pass123" eq_refl)
             (mk_user 1 "asha" (hash_password "pass123") "2024-01-01T10:00:00")
             (or_introl eq_refl) eq_refl eq_refl).
  reflexivity.
Defined.

Lemma logged_out_cannot_save_witness :
  let st := run_app ascii_lower
              [ (0%nat, SignUp "asha" "pass123" "2024-01-01T10:00:00");
                (0%nat, Login "asha" "pass123");
                (0%nat, SaveArtwork "Sunrise" "iVBORw0KGgo=" "2024-01-01T10:05:00") ] in
  map artwork_identity
      (artworks (store (app_step ascii_lower st 1
                          (SaveArtwork "Lotus" "iVBORw0KGgo=" "2024-01-01T10:06:00"))))
  = map artwork_identity (artworks (store st)).
Proof.
  intros st.
  apply (logged_out_cannot_save ascii_lower st 1
           (SaveArtwork "Lotus" "iVBORw0KGgo=" "2024-01-01T10:06:00")).
  reflexivity.
Defined.

(** ** Usernames are taken for good *)

Lemma username_present_after_create (db : DB) (username password now : string) :
  exists u, In u (users (fst (create_user username password now db)))
            /\ u_username u = username.
Proof.
  unfold create_user, insert_user.
  destruct (existsb _ (users db)) eqn:E; simpl.
  - apply existsb_exists in E. destruct E as [u [Hin Hn]].
    exists u. split; [exact Hin|now apply String.eqb_eq].
  - eexists. split; [apply in_or_app; right; left; reflexivity|reflexivity].
Qed.

Lemma run_calls_keep_user (cs : list call) (db : DB) (u : user_row) :
  In u (users db) -> In u (users (run_calls cs db)).
Proof.
  revert db. induction cs as [|c cs IH]; intros db Hin; [exact Hin|].
  change (run_calls (c :: cs) db) with (run_calls cs (run_call c db)).
  apply IH. now apply run_call_keeps_user.
Qed.

(** X20: once [create_user] has been called with a username, whether it
    returned [True] or [False], every later [create_user] with that username
    returns [False] and leaves the store as it is, whatever the password and
    whatever calls were made in between. *)
Theorem username_taken_for_good (db : DB) (username password now : string)
        (cs : list call) (password' now' : string) :
  let db1 := run_calls cs (fst (create_user username password now db)) in
  create_user username password' now' db1 = (db1, PyBool false).
Proof.
  intros db1.
  destruct (username_present_after_create db username password now) as [u [Hin Hn]].
  unfold create_user, insert_user.
  rewrite (existsb_username_true (users db1) username); [reflexivity|].
  exists u. split; [now apply run_calls_keep_user|exact Hn].
Qed.

(** ** The application and the store functions *)

Section ApplicationCalls.

Variable lower : string -> string.

Lemma app_step_is_call (st : app_state) (sid : nat) (ev : event) :
  store (app_step lower st sid ev) = store st
  \/ exists c, store (app_step lower st sid ev) = run_call c (store st).
Proof.
  destruct ev as [u p t|u p| |title img t|term sort_by i]; cbn [app_step].
  - destruct (ss_user_id (sessions st sid)); [|now left|now left].
    right. now exists (CallCreateUser u p t).
  - destruct (ss_user_id (sessions st sid)); [|now left|now left].
    destruct (truthy _); now left.
  - destruct (ss_user_id (sessions st sid)); now left.
  - destruct (ss_user_id (sessions st sid)) as [| |z]; [now left|now left|].
    destruct (truthy (PyInt z)); [|now left].
    right. now exists (CallSaveArtwork z title img t).
  - destruct (existsb _ _); [|now left].
    right. now exists (CallLikeArtwork i).
Qed.

(** X21: the application writes to the store through [create_user],
    [save_artwork] and [like_artwork] only: the store of every state it
    reaches is the empty file after some sequence of these calls. *)
Theorem app_store_by_calls (evs : list (nat * event)) :
  exists cs, store (run_app lower evs) = run_calls cs empty_db.
Proof.
  unfold run_app.
  assert (Hgen : forall st cs,
             store st = run_calls cs empty_db ->
             exists cs',
               store (fold_left (fun st e => app_step lower st (fst e) (snd e)) evs st)
               = run_calls cs' empty_db).
  { induction evs as [|e evs IH]; intros st cs Hst; simpl; [now exists cs|].
    destruct (app_step_is_call st (fst e) (snd e)) as [E|[c E]].
    - apply (IH _ cs). now rewrite E.
    - apply (IH _ (cs ++ [c])). now rewrite E, Hst, run_calls_app. }
  apply (Hgen initial_app []). reflexivity.
Qed.

End ApplicationCalls.

(** ** Newest first, by the clock *)

Lemma newest_first_order (l1 l2 l3 : list gallery_row) (r1 r2 : gallery_row) :
  newest_first (l1 ++ r1 :: l2 ++ r2 :: l3) ->
  String.ltb (g_created_at r1) (g_created_at r2) = false.
Proof.
  unfold newest_first. induction l1 as [|x l1 IH]; simpl; intros Hs.
  - inversion Hs as [|? ? _ Hall]; subst. rewrite Forall_forall in Hall.
    apply Hall. apply in_or_app. right. now left.
  - inversion Hs; subst. now apply IH.
Qed.

(** X22: of two artworks in the gallery list whose creation times are the
    isoformat() texts of valid datetimes, the one created later comes
    first. *)
Theorem later_artwork_listed_first (db : DB) (r1 r2 : gallery_row) (d1 d2 : datetime) :
  In r1 (get_artworks db) -> In r2 (get_artworks db) ->
  g_created_at r1 = isoformat d1 -> g_created_at r2 = isoformat d2 ->
  valid_datetime d1 -> valid_datetime d2 ->
  datetime_compare d1 d2 = Lt ->
  exists l1 l2 l3, get_artworks db = l1 ++ r2 :: l2 ++ r1 :: l3.
Proof.
  intros H1 H2 E1 E2 V1 V2 Hlt.
  assert (Hltb : String.ltb (g_created_at r1) (g_created_at r2) = true).
  { unfold String.ltb. rewrite E1, E2.
    assert (Hc : String.compare (isoformat d1) (isoformat d2) = Lt)
      by (rewrite (isoformat_text_order d1 d2 V1 V2); exact Hlt).
    now rewrite Hc. }
  pose proof (order_by_newest_first (join_artworks_users db)) as Hs.
  unfold get_artworks, select_gallery in *.
  set (rows := order_by_created_at_desc (join_artworks_users db)) in *.
  destruct (in_split _ _ H2) as [l1 [l2 E]].
  rewrite E in H1. apply in_app_or in H1. destruct H1 as [H1|[H1|H1]].
  - exfalso. destruct (in_split _ _ H1) as [k1 [k2 F]].
    rewrite E, F, <- app_assoc in Hs. simpl in Hs.
    pose proof (newest_first_order _ _ _ _ _ Hs). congruence.
  - subst r2. rewrite ltb_irrefl_text in Hltb. discriminate.
  - destruct (in_split _ _ H1) as [k1 [k2 F]].
    exists l1, k1, k2. now rewrite E, F.
Qed.

Lemma later_artwork_listed_first_witness :
  let db := run_calls [ CallCreateUser "asha" "pass123" "2024-01-01T10:00:00";
                        CallSaveArtwork 1 "Sunrise" "iVBORw0KGgo=" "2024-02-29T23:59:59";
                        CallSaveArtwork 1 "Lotus" "iVBORw0KGgo=" "2024-02-29T23:59:59.000001" ]
                      empty_db in
  exists l1 l2 l3,
    get_artworks db
    = l1 ++ mk_row 2 "Lotus" "iVBORw0KGgo=" 0 "2024-02-29T23:59:59.000001" "asha"
         :: l2 ++ mk_row 1 "Sunrise" "iVBORw0KGgo=" 0 "2024-02-29T23:59:59" "asha" :: l3.
Proof.
  intros db.
  apply (later_artwork_listed_first db
           (mk_row 1 "Sunrise" "iVBORw0KGgo=" 0 "2024-02-29T23:59:59" "asha")
           (mk_row 2 "Lotus" "iVBORw0KGgo=" 0 "2024-02-29T23:59:59.000001" "asha")
           (mk_datetime 2024 2 29 23 59 59 0) (mk_datetime 2024 2 29 23 59 59 1)).
  - right. left. reflexivity.
  - left. reflexivity.
  - reflexivity.
  - reflexivity.
  - unfold valid_datetime; cbn [year month day hour minute second microsecond];
      change (days_in_month 2024 2) with 29; lia.
  - unfold valid_datetime; cbn [year month day hour minute second microsecond];
      change (days_in_month 2024 2) with 29; lia.
  - reflexivity.
Defined.

Example py_lower_examples :
  py_lower "Kolam Art" = "kolam art"
  /\ py_lower "ΟΔΟΣ" = "οδος"
  /\ py_lower "Σ" = "σ"
  /\ py_lower "ΣΟΦΟΣ." = "σοφος.".
Proof. vm_compute. repeat split. Qed.

(** On ASCII text [str.lower] is the letter-by-letter lower-casing. *)
Lemma lower_from_ascii (s : string) (before_reversed : list Z) :
  is_ascii s = true ->
  utf8_encode (lower_from ucd_to_lower ucd_cased ucd_case_ignorable before_reversed
                          (utf8_decode s))
  = ascii_lower s.
Proof.
  revert before_reversed. induction s as [|c s IH]; intros b Hs; [reflexivity|].
  cbn [is_ascii] in Hs. apply andb_prop in Hs. destruct Hs as [Hc Hs].
  apply N.ltb_lt in Hc.
  assert (Hb : (byte_of c <? 128) = true) by (apply Z.ltb_lt; unfold byte_of; lia).
  cbn [utf8_decode]. cbv zeta. rewrite Hb. cbn [lower_from].
  assert (Hsigma : (byte_of c =? 931) = false)
    by (apply Z.eqb_neq; apply Z.ltb_lt in Hb; lia).
  rewrite Hsigma. apply Z.ltb_lt in Hb.
  assert (Hlow : ucd_to_lower (byte_of c)
                 = [if is_upper_ascii c then byte_of c + 32 else byte_of c]).
  { unfold ucd_to_lower.
    destruct (is_upper_ascii_spec c) as [[U B]|[U B]]; rewrite U; unfold byte_of in *;
      repeat match goal with
             | |- context [?x <=? ?y] => destruct (Z.leb_spec x y)
             end; simpl; try reflexivity; lia. }
  rewrite Hlow. cbn [app utf8_encode fold_right]. fold (utf8_encode
    (lower_from ucd_to_lower ucd_cased ucd_case_ignorable (byte_of c :: b) (utf8_decode s))).
  rewrite (IH _ Hs). cbn [ascii_lower]. unfold utf8_encode_one.
  destruct (is_upper_ascii_spec c) as [[U B]|[U B]]; rewrite U.
  - rewrite (proj2 (Z.ltb_lt _ _)) by (unfold byte_of; lia). f_equal.
    apply code_inj. rewrite lower_code, U. unfold char_of, byte_of.
    rewrite N_ascii_embedding by lia. lia.
  - rewrite (proj2 (Z.ltb_lt _ _)) by lia. f_equal.
    apply code_inj. rewrite lower_code, U. unfold char_of, byte_of.
    rewrite N_ascii_embedding by lia. lia.
Qed.

Lemma py_lower_ascii (s : string) : is_ascii s = true -> py_lower s = ascii_lower s.
Proof.
  apply lower_from_ascii.
Qed.

Lemma gallery_loop_filters_witness :
  let rows := [ mk_row 1 "My Kolam Creation" "" 0 "2024-01-03T08:00:00" "asha";
                mk_row 2 "Sunrise" "" 2 "2024-01-02T08:00:00" "KolamFan";
                mk_row 3 "Sunset" "" 5 "2024-01-01T08:00:00" "ravi" ] in
  map g_title (gallery_loop py_lower "kolam" rows) = ["My Kolam Creation"; "Sunrise"]
  /\ gallery_loop py_lower "kolam" rows = filterBySearchTerm py_lower rows "kolam"
  /\ (In (mk_row 2 "Sunrise" "" 2 "2024-01-02T08:00:00" "KolamFan")
         (gallery_loop py_lower "kolam" rows)
      <-> In (mk_row 2 "Sunrise" "" 2 "2024-01-02T08:00:00" "KolamFan") rows
          /\ ("kolam" = "" \/ occurs_ignoring_case "kolam" "Sunrise"
              \/ occurs_ignoring_case "kolam" "KolamFan")).
Proof.
  intros rows. split; [reflexivity|split].
  - exact (proj1 (gallery_loop_filters py_lower rows "kolam")).
  - exact (proj2 (proj2 (proj2 (proj2 (gallery_loop_filters py_lower rows "kolam"))))
             py_lower_ascii eq_refl
             (mk_row 2 "Sunrise" "" 2 "2024-01-02T08:00:00" "KolamFan") eq_refl eq_refl).
Defined.

